(** * player_ui.py: the metadata listener and the cover-art lookup

    A shallow embedding of [metadata_listener] and [most_recent_cover] of
    [player_ui.py], together with the parts of the Python runtime they call
    ([re.search] on the three tag patterns, [int], [base64.b64decode],
    [bytes.decode("utf-8", errors="replace")], [os.path.join], [str.strip],
    [pathlib]'s [suffix]), and the properties of the frame pipeline proved
    about them.

    Conventions.
    - Text read from the pipe, file names and paths are [string]s whose
      characters are the code points U+0000..U+00FF; on this alphabet the
      regular-expression class [\d] is exactly [0-9].
    - Bytes and decoded code points are [Z]; a decoded text is a list of code
      points.
    - [time.time()] returns an IEEE binary64 number: a primitive [float].
    - [current_song] and [ESSENTIAL_FIELDS] are dictionaries: [gmap]s keyed by
      strings.
    - The imaging library (Pillow) is an interface, [imaging]; the functions of
      the file are stated for every implementation of it. *)

From Stdlib Require Import ZArith Ascii String List PrimFloat FloatOps SpecFloat Lia.
From stdpp Require Import gmap strings pretty.

Local Open Scope string_scope.
Local Open Scope Z_scope.

(** ** Exceptions and results *)

(** The exceptions that the modelled calls raise. *)
Inductive exn : Type :=
| ValueError            (* int(): too many digits; b64decode: non-ASCII text;
                           int(float): not a number *)
| OverflowError         (* int(float): infinity *)
| binascii_Error        (* a2b_base64: incorrect padding or length *)
| Image_Error (why : string). (* raised by the imaging library *)

Inductive result (A : Type) : Type :=
| Ok (a : A)
| Raise (e : exn).
Arguments Ok {A} a.
Arguments Raise {A} e.

Definition bind {A B} (r : result A) (k : A -> result B) : result B :=
  match r with
  | Ok a => k a
  | Raise e => Raise e
  end.

Definition is_Ok {A} (r : result A) : bool :=
  match r with Ok _ => true | Raise _ => false end.

(** ** Strings *)

Module Str.

Definition code (c : ascii) : Z := Z.of_N (N_of_ascii c).

(** [s[len(p):]] when [s.startswith(p)]. *)
Fixpoint strip_prefix (p s : string) : option string :=
  match p with
  | EmptyString => Some s
  | String a p' =>
      match s with
      | EmptyString => None
      | String b s' => if Ascii.eqb a b then strip_prefix p' s' else None
      end
  end.

Definition startswith (s p : string) : bool :=
  match strip_prefix p s with Some _ => true | None => false end.

(** [s.endswith(suffix)]: some tail of [s] is [suffix]. *)
Fixpoint endswith (s suffix : string) : bool :=
  String.eqb s suffix
  || match s with
     | EmptyString => false
     | String _ s' => endswith s' suffix
     end.

(** [str.isspace] on U+0000..U+00FF. *)
Definition isspace (c : ascii) : bool :=
  let n := code c in
  ((9 <=? n) && (n <=? 13)) || ((28 <=? n) && (n <=? 32))
  || (n =? 133) || (n =? 160).

Fixpoint lstrip (s : string) : string :=
  match s with
  | EmptyString => EmptyString
  | String c s' => if isspace c then lstrip s' else s
  end.

Fixpoint rstrip (s : string) : string :=
  match s with
  | EmptyString => EmptyString
  | String c s' =>
      match rstrip s' with
      | EmptyString => if isspace c then EmptyString else String c EmptyString
      | r => String c r
      end
  end.

(** [s.strip()] *)
Definition strip (s : string) : string := rstrip (lstrip s).

(** [str.lower] on U+0000..U+00FF: [A-Z] and U+00C0..U+00DE except the
    multiplication sign U+00D7. *)
Definition lower_char (c : ascii) : ascii :=
  let n := code c in
  if ((65 <=? n) && (n <=? 90))
     || ((192 <=? n) && (n <=? 222) && negb (n =? 215))
  then ascii_of_N (Z.to_N (n + 32))
  else c.

Fixpoint lower (s : string) : string :=
  match s with
  | EmptyString => EmptyString
  | String c s' => String (lower_char c) (lower s')
  end.

(** The code points of a string, as a decoded text. *)
Fixpoint codepoints (s : string) : list Z :=
  match s with
  | EmptyString => nil
  | String c s' => code c :: codepoints s'
  end.

End Str.

(** ** The three regular expressions *)

Module Re.

(** [re.search]: the anchored matcher is tried at every start position,
    leftmost first; the first success is the match. *)
Fixpoint search {A} (match_at : string -> option A) (s : string) : option A :=
  match match_at s with
  | Some g => Some g
  | None =>
      match s with
      | EmptyString => None
      | String _ s' => search match_at s'
      end
  end.

(** [\d] *)
Definition isdigit (c : ascii) : bool :=
  let n := Str.code c in (48 <=? n) && (n <=? 57).

Fixpoint all_digits (s : string) : bool :=
  match s with
  | EmptyString => true
  | String c s' => isdigit c && all_digits s'
  end.

(** The longest run of [\d] at the head of [s], and what follows it. *)
Fixpoint digits (s : string) : string * string :=
  match s with
  | EmptyString => (EmptyString, EmptyString)
  | String c s' =>
      if isdigit c
      then let '(ds, tl) := digits s' in (String c ds, tl)
      else (EmptyString, s)
  end.

(** [(.*?)close] at the head of [s]: the group grows one character at a
    time, [.] does not match a line feed, and [close] is tried first. *)
Fixpoint lazy_until (close s : string) : option string :=
  if Str.startswith s close then Some EmptyString
  else
    match s with
    | EmptyString => None
    | String c s' =>
        if Ascii.eqb c "010"%char then None
        else option_map (String c) (lazy_until close s')
    end.

(** [<length>(\d+)</length>] anchored at the head of [s]; group 1. *)
Definition length_at (s : string) : option string :=
  match Str.strip_prefix "<length>" s with
  | None => None
  | Some rest =>
      let '(ds, tl) := digits rest in
      if negb (String.eqb ds EmptyString) && Str.startswith tl "</length>"
      then Some ds
      else None
  end.

(** Some tail of [s] starts with the opening length tag. *)
Fixpoint has_open (s : string) : bool :=
  Str.startswith s "<length>"
  || match s with
     | EmptyString => false
     | String _ s' => has_open s'
     end.

(** [<code>(.*?)</code>] anchored at the head of [s]; group 1. *)
Definition code_at (s : string) : option string :=
  match Str.strip_prefix "<code>" s with
  | None => None
  | Some rest => lazy_until "</code>" rest
  end.

(** [<data encoding="base64">(.*?)</data>] anchored at the head of [s]. *)
Definition data_open : string :=
  "<data encoding=" ++ String "034"%char ("base64" ++ String "034"%char ">").

Definition data_at (s : string) : option string :=
  match Str.strip_prefix data_open s with
  | None => None
  | Some rest => lazy_until "</data>" rest
  end.

End Re.

(** ** [int] *)

Module Int.

Fixpoint digits_value (acc : Z) (ds : string) : Z :=
  match ds with
  | EmptyString => acc
  | String c ds' => digits_value (10 * acc + (Str.code c - 48)) ds'
  end.

(** [int(ds)] for a string of decimal digits.  CPython refuses a string of
    more than [max_str_digits] digits with [ValueError]
    ([sys.get_int_max_str_digits()]: 4300 unless reconfigured, 0 switches the
    limit off; before the limit existed the conversion never failed, which
    is the case 0).  The test is only made above 640 digits. *)
Definition of_digits (max_str_digits : Z) (ds : string) : result Z :=
  let digits := Z.of_nat (String.length ds) in
  if (640 <? digits) && (0 <? max_str_digits) && (max_str_digits <? digits)
  then Raise ValueError
  else Ok (digits_value 0 ds).

(** [int(x)] for a float: truncation towards zero. *)
Definition of_float (x : float) : result Z :=
  match Prim2SF x with
  | S754_zero _ => Ok 0
  | S754_infinity _ => Raise OverflowError
  | S754_nan => Raise ValueError
  | S754_finite s m e =>
      let mag := if 0 <=? e then Z.shiftl (Z.pos m) e
                 else Z.shiftr (Z.pos m) (- e) in
      Ok (if s then - mag else mag)
  end.

End Int.

(** ** [base64.b64decode] *)

Module Base64.

(** [s.encode('ascii')]: [b64decode] refuses a [str] with a character above
    U+007F ([ValueError]). *)
Fixpoint encode_ascii (s : string) : result (list Z) :=
  match s with
  | EmptyString => Ok nil
  | String c s' =>
      if Str.code c <? 128
      then bind (encode_ascii s') (fun bs => Ok (Str.code c :: bs))
      else Raise ValueError
  end.

(** The value of a base64 digit; 64 marks a byte outside the alphabet. *)
Definition table_a2b_base64 (c : Z) : Z :=
  if (65 <=? c) && (c <=? 90) then c - 65
  else if (97 <=? c) && (c <=? 122) then c - 71
  else if (48 <=? c) && (c <=? 57) then c + 4
  else if c =? 43 then 62
  else if c =? 47 then 63
  else 64.

Definition BASE64_PAD : Z := 61.

Definition emit (b : Z) (r : result (list Z)) : result (list Z) :=
  bind r (fun bs => Ok (Z.land b 255 :: bs)).

(** The loop of [binascii.a2b_base64] without strict mode.  [quad_pos] is
    the position in the current group of four digits, [leftchar] the bits
    not yet written, [pads] the pad characters seen since the last digit. *)
Fixpoint a2b_loop (ascii_data : list Z) (quad_pos leftchar pads : Z)
  : result (list Z) :=
  match ascii_data with
  | nil => if quad_pos =? 0 then Ok nil else Raise binascii_Error
  | this_ch :: rest =>
      if this_ch =? BASE64_PAD then
        if 2 <=? quad_pos then
          if 4 <=? quad_pos + (pads + 1) then Ok nil
          else a2b_loop rest quad_pos leftchar (pads + 1)
        else a2b_loop rest quad_pos leftchar pads
      else
        let this_ch := table_a2b_base64 this_ch in
        if 64 <=? this_ch then a2b_loop rest quad_pos leftchar pads
        else if quad_pos =? 0 then
          a2b_loop rest 1 this_ch 0
        else if quad_pos =? 1 then
          emit (Z.lor (Z.shiftl leftchar 2) (Z.shiftr this_ch 4))
               (a2b_loop rest 2 (Z.land this_ch 15) 0)
        else if quad_pos =? 2 then
          emit (Z.lor (Z.shiftl leftchar 4) (Z.shiftr this_ch 2))
               (a2b_loop rest 3 (Z.land this_ch 3) 0)
        else
          emit (Z.lor (Z.shiftl leftchar 6) this_ch)
               (a2b_loop rest 0 0 0)
  end.

Definition a2b_base64 (ascii_data : list Z) : result (list Z) :=
  a2b_loop ascii_data 0 0 0.

(** The bytes the loop looks at: the pad and the 64 digits. *)
Definition significant (c : Z) : bool :=
  (c =? BASE64_PAD) || (table_a2b_base64 c <? 64).

(** A digit of the alphabet. *)
Definition isdigit64 (c : Z) : bool :=
  negb (c =? BASE64_PAD) && (table_a2b_base64 c <? 64).

(** [base64.b64decode(s)] for a [str], with [validate=False]. *)
Definition b64decode (s : string) : result (list Z) :=
  bind (encode_ascii s) a2b_base64.

End Base64.

(** ** [bytes.decode("utf-8", errors="replace")] *)

Module Utf8.

Definition REPLACEMENT : Z := 0xFFFD.

(** A multi-byte sequence in progress: the bits read so far, the number of
    continuation bytes expected after the next one, and the range the next
    byte must lie in. *)
Record pending : Type := {
  acc : Z;
  more : nat;
  lo : Z;
  hi : Z
}.

Inductive lead : Type :=
| Single (cp : Z)
| Multi (p : pending)
| InvalidStart.

Definition classify (ch : Z) : lead :=
  if ch <? 0x80 then Single ch
  else if ch <? 0xC2 then InvalidStart
  else if ch <? 0xE0 then
    Multi {| acc := Z.land ch 0x1F; more := 0; lo := 0x80; hi := 0xBF |}
  else if ch <? 0xF0 then
    Multi {| acc := Z.land ch 0x0F; more := 1;
             lo := if ch =? 0xE0 then 0xA0 else 0x80;
             hi := if ch =? 0xED then 0x9F else 0xBF |}
  else if ch <? 0xF5 then
    Multi {| acc := Z.land ch 0x07; more := 2;
             lo := if ch =? 0xF0 then 0x90 else 0x80;
             hi := if ch =? 0xF4 then 0x8F else 0xBF |}
  else InvalidStart.

(** Every maximal ill-formed run (a bad start byte, or the valid beginning
    of a sequence cut short by a wrong byte or by the end of the data)
    becomes one U+FFFD; the byte that cuts a sequence short is then read
    again as a start byte. *)
Fixpoint decode_from (st : option pending) (bs : list Z) : list Z :=
  match bs with
  | nil => match st with Some _ => REPLACEMENT :: nil | None => nil end
  | ch :: rest =>
      let fresh :=
        match classify ch with
        | Single cp => cp :: decode_from None rest
        | Multi p => decode_from (Some p) rest
        | InvalidStart => REPLACEMENT :: decode_from None rest
        end in
      match st with
      | None => fresh
      | Some p =>
          if (lo p <=? ch) && (ch <=? hi p) then
            let acc' := acc p * 64 + Z.land ch 0x3F in
            match more p with
            | O => acc' :: decode_from None rest
            | S n =>
                decode_from
                  (Some {| acc := acc'; more := n; lo := 0x80; hi := 0xBF |})
                  rest
            end
          else REPLACEMENT :: fresh
      end
  end.

Definition decode_replace (bs : list Z) : list Z := decode_from None bs.

End Utf8.

(** ** [os.path.join] (POSIX) with one component *)

Definition os_path_join (a b : string) : string :=
  if Str.startswith b "/" then b
  else if String.eqb a EmptyString || Str.endswith a "/" then a ++ b
  else a ++ "/" ++ b.

(** ** The imaging library *)

(** What [img.save(path)] did: it wrote [content] to the file; or it raised,
    either with the file system as it was (it had not opened the file, or it
    removed the file it had just created) or with the part [c] it had written
    in the file ([Some c]). *)
Inductive save_outcome : Type :=
| Saved (content : list Z)
| SaveFailed (e : exn) (partial : option (list Z)).

Record imaging : Type := {
  image : Type;
  (** [Image.open(BytesIO(data))] *)
  Image_open : list Z -> result image;
  (** [img.format] *)
  Image_format : image -> option string;
  (** [img.save(path)], given the file now at [path]; the encoder is chosen
      from the extension of [path]. *)
  Image_save : image -> string -> option (list Z) -> save_outcome
}.

(** ** Configuration and shared state *)

Definition PIPE_PATH : string := "/tmp/shairport-sync-metadata".
Definition COVER_ART_DIR : string := "/tmp/shairport-sync/.cache/coverart".

Definition ESSENTIAL_FIELDS : gmap string string :=
  <["6d696e6d" := "track_name"]>
  (<["61736370" := "comment"]>
  (<["6173616c" := "album"]>
  (<["50494354" := "picture_data"]> ∅))).

(** The values stored in [current_song]. *)
Inductive pyval : Type :=
| PyNone
| PyInt (n : Z)
| PyFloat (x : float)
| PyStr (text : list Z).

Definition current_song : gmap string pyval :=
  <["track_name" := PyNone]>
  (<["comment" := PyNone]>
  (<["album" := PyNone]>
  (<["picture_file" := PyNone]>
  (<["last_update" := PyInt 0]> ∅)))).

(** The lines printed by the listener. *)
Inductive message : Type :=
| Error_saving_image (e : exn)
| Exception_decoding_item (e : exn)
| Metadata_listener_exception (e : exn).

(** What [metadata_listener] reads and writes: its local [buffer], the shared
    dictionary, the files, the standard output, and how many times the clock
    has been read. *)
Record state : Type := {
  buffer : string;
  song : gmap string pyval;
  files : gmap string (list Z);
  stdout : list message;
  clock_reads : nat
}.

Definition set_buffer (b : string) (st : state) : state :=
  {| buffer := b; song := song st; files := files st;
     stdout := stdout st; clock_reads := clock_reads st |}.

Definition set_song (m : gmap string pyval) (st : state) : state :=
  {| buffer := buffer st; song := m; files := files st;
     stdout := stdout st; clock_reads := clock_reads st |}.

Definition set_files (fs : gmap string (list Z)) (st : state) : state :=
  {| buffer := buffer st; song := song st; files := fs;
     stdout := stdout st; clock_reads := clock_reads st |}.

Definition print (m : message) (st : state) : state :=
  {| buffer := buffer st; song := song st; files := files st;
     stdout := stdout st ++ m :: nil; clock_reads := clock_reads st |}.

(** ** [metadata_listener] *)

Section Listener.

(** The imaging library, the interpreter's limit on [int] of a string, the
    successive values of [time.time()], and the [cover_dir] argument. *)
Variable PIL : imaging.
Variable max_str_digits : Z.
Variable clock : nat -> float.
Variable cover_dir : string.

(** [time.time()] *)
Definition time_time (st : state) : float * state :=
  (clock (clock_reads st),
   {| buffer := buffer st; song := song st; files := files st;
      stdout := stdout st; clock_reads := S (clock_reads st) |}).

(** [img.format.lower() if img.format else "jpg"] *)
Definition extension (img : image PIL) : string :=
  match Image_format PIL img with
  | Some f => if String.eqb f EmptyString then "jpg" else Str.lower f
  | None => "jpg"
  end.

(** [os.path.join(cover_dir, f"cover_art_{ts}.{ext}")] *)
Definition cover_art_file (ts : Z) (ext : string) : string :=
  os_path_join cover_dir ("cover_art_" ++ pretty ts ++ "." ++ ext).

(** Lines 105-115: the picture branch with its own handler. *)
Definition save_picture (decoded_bytes : list Z) (st : state) : state :=
  match Image_open PIL decoded_bytes with
  | Raise e => print (Error_saving_image e) st
  | Ok img =>
      let ext := extension img in
      let '(t, st) := time_time st in
      match Int.of_float (t * 1000)%float with
      | Raise e => print (Error_saving_image e) st
      | Ok ts =>
          let img_file := cover_art_file ts ext in
          match Image_save PIL img img_file (files st !! img_file) with
          | SaveFailed e partial =>
              print (Error_saving_image e)
                (match partial with
                 | Some c => set_files (<[img_file := c]> (files st)) st
                 | None => st
                 end)
          | Saved content =>
              let st := set_files (<[img_file := content]> (files st)) st in
              let st :=
                set_song (<["picture_file" := PyStr (Str.codepoints img_file)]>
                            (song st)) st in
              let '(now, st) := time_time st in
              set_song (<["last_update" := PyFloat now]> (song st)) st
          end
      end
  end.

(** Lines 101-123: decode the payload and update the field. *)
Definition decode_item (field_name data_b64 : string) (st : state) : state :=
  match Base64.b64decode data_b64 with
  | Raise e => print (Exception_decoding_item e) st
  | Ok decoded_bytes =>
      if String.eqb field_name "picture_data" then
        save_picture decoded_bytes st
      else
        let text := Utf8.decode_replace decoded_bytes in
        let st := set_song (<[field_name := PyStr text]> (song st)) st in
        let '(now, st) := time_time st in
        set_song (<["last_update" := PyFloat now]> (song st)) st
  end.

(** [int(length_match.group(1)) if length_match else 0] *)
Definition frame_length (buf : string) : result Z :=
  match Re.search Re.length_at buf with
  | Some ds => Int.of_digits max_str_digits ds
  | None => Ok 0
  end.

(** Lines 83-125: the body run when the buffer ends with the closing tag.
    The first component is the exception that leaves the body, if any. *)
Definition process_frame (st : state) : option exn * state :=
  match frame_length (buffer st) with
  | Raise e => (Some e, st)
  | Ok length =>
      if length =? 0 then (None, set_buffer EmptyString st)
      else
        match Re.search Re.code_at (buffer st),
              Re.search Re.data_at (buffer st) with
        | Some code, Some data_b64 =>
            match ESSENTIAL_FIELDS !! code with
            | None => (None, set_buffer EmptyString st)
            | Some field_name =>
                (None, set_buffer EmptyString (decode_item field_name data_b64 st))
            end
        | _, _ => (None, set_buffer EmptyString st)
        end
  end.

(** Lines 76-128: one turn of the reading loop on the line returned by
    [readline].  An empty line means no data; an exception that leaves the
    body is printed by the handler of the outer loop, which then reopens the
    pipe and goes on reading. *)
Definition read_line (line : string) (st : state) : state :=
  if String.eqb line EmptyString then st
  else
    let st := set_buffer (buffer st ++ Str.strip line) st in
    if Str.endswith (buffer st) "</item>" then
      match process_frame st with
      | (None, st') => st'
      | (Some e, st') => print (Metadata_listener_exception e) st'
      end
    else st.

(** The listener on the lines that the pipe delivers, in order. *)
Definition metadata_listener (lines : list string) (st : state) : state :=
  fold_left (fun st line => read_line line st) lines st.

(** *** Vocabulary for the statements *)

(** The buffer once [line] has been appended. *)
Definition frame (line : string) (st : state) : string :=
  buffer st ++ Str.strip line.

(** [line] completes a frame: [readline] returned data and the buffer now
    ends with the closing tag. *)
Definition completes (line : string) (st : state) : bool :=
  negb (String.eqb line EmptyString)
  && Str.endswith (frame line st) "</item>".

(** The frame passes lines 83-98: its length is extracted and is not 0, it
    has a code tag and a data tag, and the table sends its code to
    [field_name]. *)
Definition routed (buf field_name data_b64 : string) : Prop :=
  exists (len : Z) (code : string),
    frame_length buf = Ok len /\ 0 < len
    /\ Re.search Re.code_at buf = Some code
    /\ Re.search Re.data_at buf = Some data_b64
    /\ ESSENTIAL_FIELDS !! code = Some field_name.

(** The frame is dropped at lines 85-96 or at line 92: length 0 (or no
    length tag), no code tag, no data tag, or a code outside the table. *)
Definition dropped (buf : string) : Prop :=
  frame_length buf = Ok 0
  \/ Re.search Re.code_at buf = None
  \/ Re.search Re.data_at buf = None
  \/ (exists code, Re.search Re.code_at buf = Some code
                   /\ ESSENTIAL_FIELDS !! code = None).

(** Lines 102-110 fail on a routed frame, and the handler prints [m]: the
    payload is not base64; or, for a picture, [Image.open] raises, the time
    stamp cannot be made an integer, or [img.save] raises. *)
Inductive decode_failure (field_name data_b64 : string) (st : state)
  : message -> Prop :=
| base64_fails e :
    Base64.b64decode data_b64 = Raise e ->
    decode_failure field_name data_b64 st (Exception_decoding_item e)
| open_fails bytes e :
    field_name = "picture_data" ->
    Base64.b64decode data_b64 = Ok bytes ->
    Image_open PIL bytes = Raise e ->
    decode_failure field_name data_b64 st (Error_saving_image e)
| stamp_fails bytes img e :
    field_name = "picture_data" ->
    Base64.b64decode data_b64 = Ok bytes ->
    Image_open PIL bytes = Ok img ->
    Int.of_float (clock (clock_reads st) * 1000)%float = Raise e ->
    decode_failure field_name data_b64 st (Error_saving_image e)
| save_fails bytes img ts e partial :
    field_name = "picture_data" ->
    Base64.b64decode data_b64 = Ok bytes ->
    Image_open PIL bytes = Ok img ->
    Int.of_float (clock (clock_reads st) * 1000)%float = Ok ts ->
    Image_save PIL img (cover_art_file ts (extension img))
      (files st !! cover_art_file ts (extension img))
    = SaveFailed e partial ->
    decode_failure field_name data_b64 st (Error_saving_image e).

(** Lines 102-120 succeed on a routed frame and stamp [last_update] with
    [t]: a text field is decoded, or a picture is opened and saved. *)
Inductive update_made (field_name data_b64 : string) (st : state)
  : float -> Prop :=
| text_made bytes :
    field_name <> "picture_data" ->
    Base64.b64decode data_b64 = Ok bytes ->
    update_made field_name data_b64 st (clock (clock_reads st))
| picture_made bytes img ts content :
    field_name = "picture_data" ->
    Base64.b64decode data_b64 = Ok bytes ->
    Image_open PIL bytes = Ok img ->
    Int.of_float (clock (clock_reads st) * 1000)%float = Ok ts ->
    Image_save PIL img (cover_art_file ts (extension img))
      (files st !! cover_art_file ts (extension img))
    = Saved content ->
    update_made field_name data_b64 st (clock (S (clock_reads st))).

End Listener.

(** The state when the listener starts. *)
Definition initial (fs : gmap string (list Z)) : state :=
  {| buffer := EmptyString; song := current_song; files := fs;
     stdout := nil; clock_reads := 0 |}.

(** ** [most_recent_cover] *)

Module Cover.

(** The errors of the file system, which [most_recent_cover] does not
    catch. *)
Inductive os_error : Type :=
| FileNotFoundError
| NotADirectoryError
| PermissionError.

(** An entry that [stat] can read: its name and its modification time.
    [st_mtime] is a finite float of which only the order is used; it is kept
    as an integer time stamp. *)
Record entry : Type := {
  name : string;
  st_mtime : Z
}.

(** An entry of the directory as [iterdir] yields it: one that [f.stat()]
    can read, or a name for which [f.stat()] raises (a symbolic link to
    nothing, an entry removed since it was listed). *)
Inductive listed : Type :=
| Stat (f : entry)
| No_stat (n : string) (e : os_error).

Definition listed_name (x : listed) : string :=
  match x with
  | Stat f => name f
  | No_stat n _ => n
  end.

(** The directory at [p]: [p.exists()] is false; or [p.exists()] or
    [p.iterdir()] raises ([p] is no directory, or may not be read); or its
    entries in the order of [iterdir]. *)
Inductive directory : Type :=
| Missing
| Unreadable (e : os_error)
| Listing (files : list listed).

(** [name.rfind(".")], -1 when there is no dot. *)
Fixpoint rfind_dot (s : string) : Z :=
  match s with
  | EmptyString => -1
  | String c s' =>
      let i := rfind_dot s' in
      if 0 <=? i then i + 1
      else if Ascii.eqb c "."%char then 0 else -1
  end.

(** [PurePath.suffix]: from the last dot of the name, unless the name has
    no dot, starts with its only dot, or ends with a dot. *)
Definition suffix (name : string) : string :=
  let i := rfind_dot name in
  let n := Z.of_nat (String.length name) in
  if (0 <? i) && (i <? n - 1)
  then String.substring (Z.to_nat i) (Z.to_nat (n - i)) name
  else EmptyString.

Definition IMAGE_SUFFIXES : list string :=
  ".jpg" :: ".jpeg" :: ".png" :: ".gif" :: ".bmp" :: nil.

(** [f.suffix.lower() in ('.jpg', '.jpeg', '.png', '.gif', '.bmp')], which
    looks at the name only. *)
Definition recognized (n : string) : bool :=
  existsb (String.eqb (Str.lower (suffix n))) IMAGE_SUFFIXES.

Definition is_candidate (f : entry) : bool := recognized (name f).

Definition candidate (x : listed) : bool := recognized (listed_name x).

(** The keys of the sort, [x.stat().st_mtime] for every candidate in the
    order of the list: the first exception leaves the sort. *)
Fixpoint stat_all (l : list listed) : list entry + os_error :=
  match l with
  | nil => inl nil
  | Stat f :: l' =>
      match stat_all l' with
      | inl keyed => inl (f :: keyed)
      | inr e => inr e
      end
  | No_stat _ e :: _ => inr e
  end.

(** [list.sort(key=st_mtime, reverse=True)]: the sort is stable, entries
    with equal keys keep their order. *)
Fixpoint insert_desc (x : entry) (l : list entry) : list entry :=
  match l with
  | nil => x :: nil
  | y :: l' =>
      if st_mtime x <? st_mtime y then y :: insert_desc x l'
      else x :: l
  end.

Fixpoint sort_desc (l : list entry) : list entry :=
  match l with
  | nil => nil
  | x :: l' => insert_desc x (sort_desc l')
  end.

(** [str(p / name)] for [p = Path(cover_dir)] printed as [p]. *)
Definition child (p name : string) : string :=
  if String.eqb p "." then name else os_path_join p name.

(** [most_recent_cover]; [dir] is the directory at [p].  It returns a path
    or [None], or an error of the file system leaves it. *)
Definition most_recent_cover (p : string) (dir : directory)
  : option string + os_error :=
  match dir with
  | Missing => inl None
  | Unreadable e => inr e
  | Listing files =>
      let candidates := List.filter candidate files in
      match candidates with
      | nil => inl None
      | _ :: _ =>
          match stat_all candidates with
          | inr e => inr e
          | inl keyed =>
              match sort_desc keyed with
              | nil => inl None
              | f :: _ => inl (Some (child p (name f)))
              end
          end
      end
  end.

End Cover.

(** ** The lock: [with buffer_lock] in the listener and in [refresh_ui] *)

Module Locked.

(** An update of the listener, lines 111-113 and 118-120: under the lock,
    one key is assigned, then [last_update]. *)
Record update : Type := {
  key : string;
  value : pyval;
  stamp : float
}.

Definition apply (m : gmap string pyval) (u : update) : gmap string pyval :=
  <["last_update" := PyFloat (stamp u)]> (<[key u := value u]> m).

(** Where the listener is in its [with] block. *)
Inductive writer : Type :=
| W_outside
| W_acquired (u : update)
| W_assigned (u : update)
| W_stamped (u : update).

(** The keys that [refresh_ui] reads under the lock, lines 193-197. *)
Definition KEYS : list string :=
  "track_name" :: "comment" :: "album" :: "picture_file" :: "last_update"
  :: nil.

(** [current_song.get(k)] for each key, in order. *)
Definition view (m : gmap string pyval) : list (option pyval) :=
  map (fun k => m !! k) KEYS.

(** Where [refresh_ui] is in its [with] block: outside, or inside with the
    values read so far. *)
Inductive reader : Type :=
| R_outside
| R_reading (got : list (option pyval)).

Record config : Type := {
  dict : gmap string pyval;
  locked : bool;
  w : writer;
  r : reader;
  (** the updates completed and the snapshots taken so far *)
  completed : list update;
  seen : list (list (option pyval))
}.

Definition start : config :=
  {| dict := current_song; locked := false; w := W_outside; r := R_outside;
     completed := nil; seen := nil |}.

(** One step of either thread.  A thread enters its block only when the
    lock is free. *)
Inductive step : config -> config -> Prop :=
| writer_acquire d rd done sn u :
    step {| dict := d; locked := false; w := W_outside; r := rd;
            completed := done; seen := sn |}
         {| dict := d; locked := true; w := W_acquired u; r := rd;
            completed := done; seen := sn |}
| writer_assign d l rd done sn u :
    step {| dict := d; locked := l; w := W_acquired u; r := rd;
            completed := done; seen := sn |}
         {| dict := <[key u := value u]> d; locked := l; w := W_assigned u;
            r := rd; completed := done; seen := sn |}
| writer_stamp d l rd done sn u :
    step {| dict := d; locked := l; w := W_assigned u; r := rd;
            completed := done; seen := sn |}
         {| dict := <["last_update" := PyFloat (stamp u)]> d; locked := l;
            w := W_stamped u; r := rd; completed := done; seen := sn |}
| writer_release d l rd done sn u :
    step {| dict := d; locked := l; w := W_stamped u; r := rd;
            completed := done; seen := sn |}
         {| dict := d; locked := false; w := W_outside; r := rd;
            completed := done ++ u :: nil; seen := sn |}
| reader_acquire d wr done sn :
    step {| dict := d; locked := false; w := wr; r := R_outside;
            completed := done; seen := sn |}
         {| dict := d; locked := true; w := wr; r := R_reading nil;
            completed := done; seen := sn |}
| reader_get d l wr done sn got k :
    nth_error KEYS (List.length got) = Some k ->
    step {| dict := d; locked := l; w := wr; r := R_reading got;
            completed := done; seen := sn |}
         {| dict := d; locked := l; w := wr;
            r := R_reading (got ++ d !! k :: nil);
            completed := done; seen := sn |}
| reader_release d l wr done sn got :
    List.length got = List.length KEYS ->
    step {| dict := d; locked := l; w := wr; r := R_reading got;
            completed := done; seen := sn |}
         {| dict := d; locked := false; w := wr; r := R_outside;
            completed := done; seen := sn ++ got :: nil |}.

Inductive reachable : config -> Prop :=
| reachable_start : reachable start
| reachable_step c c' : reachable c -> step c c' -> reachable c'.

(** The dictionary after a whole number of updates. *)
Definition after (us : list update) : gmap string pyval :=
  fold_left apply us current_song.

(** The dictionary while the listener is at [wr], after the updates [us]. *)
Definition in_progress (wr : writer) (us : list update) : gmap string pyval :=
  match wr with
  | W_outside | W_acquired _ => after us
  | W_assigned u => <[key u := value u]> (after us)
  | W_stamped u => apply (after us) u
  end.

Definition writer_inside (wr : writer) : bool :=
  match wr with W_outside => false | _ => true end.

Definition reader_inside (rd : reader) : bool :=
  match rd with R_outside => false | R_reading _ => true end.

(** What holds of every reachable configuration. *)
Record invariant (c : config) : Prop := {
  lock_held : locked c = writer_inside (w c) || reader_inside (r c);
  exclusion : writer_inside (w c) && reader_inside (r c) = false;
  dict_in_progress : dict c = in_progress (w c) (completed c);
  reads_current :
    match r c with
    | R_outside => True
    | R_reading got =>
        got = map (fun k => dict c !! k) (firstn (List.length got) KEYS)
    end;
  seen_whole :
    forall snap, In snap (seen c) ->
      exists us rest, completed c = (us ++ rest)%list /\ snap = view (after us)
}.

(** The update that sets the title "Hello" at 1700000000.5. *)
Definition hello_update : update :=
  {| key := "track_name"; value := PyStr (Str.codepoints "Hello");
     stamp := 1700000000.5%float |}.

(** The configuration after that update and a snapshot taken after it. *)
Definition hello_seen : config :=
  {| dict := apply current_song hello_update; locked := false;
     w := W_outside; r := R_outside;
     completed := hello_update :: nil;
     seen := view (apply current_song hello_update) :: nil |}.

End Locked.

(** A Unicode scalar value: a code point up to U+10FFFF that is not a
    surrogate; what a Python [str] decoded from UTF-8 is made of. *)
Definition scalar_value (cp : Z) : Prop :=
  0 <= cp <= 0x10FFFF /\ ~ (0xD800 <= cp <= 0xDFFF).

(** The code points a sequence in progress can still end in lie between
    [ends_from p] and [ends_upto p]. *)
Definition ends_from (p : Utf8.pending) : Z :=
  (Utf8.acc p * 64 + (Utf8.lo p - 128)) * 64 ^ Z.of_nat (Utf8.more p).

Definition ends_upto (p : Utf8.pending) : Z :=
  (Utf8.acc p * 64 + (Utf8.hi p - 128)) * 64 ^ Z.of_nat (Utf8.more p)
  + (64 ^ Z.of_nat (Utf8.more p) - 1).

(** A sequence in progress that can only end in a scalar value. *)
Definition pending_ok (p : Utf8.pending) : Prop :=
  128 <= Utf8.lo p /\ Utf8.hi p <= 191 /\ 0 <= Utf8.acc p
  /\ (Utf8.more p <= 2)%nat
  /\ ends_upto p <= 0x10FFFF
  /\ (ends_upto p < 0xD800 \/ 0xDFFF < ends_from p).

(** ** The reading loop around the pipe *)

(** What one turn of the two loops of [metadata_listener] meets, lines 69-79
    and 126-128: the pipe is not there (sleep and look again), [readline]
    returns a line (empty: no data), or opening or reading the pipe raises
    (the handler prints, sleeps, and the pipe is opened again). *)
Inductive event : Type :=
| Readline (line : string)
| Pipe_missing
| Pipe_raises (e : exn).

Section Events.

Variable PIL : imaging.
Variable max_str_digits : Z.
Variable clock : nat -> float.
Variable cover_dir : string.

Definition on_event (ev : event) (st : state) : state :=
  match ev with
  | Readline line => read_line PIL max_str_digits clock cover_dir line st
  | Pipe_missing => st
  | Pipe_raises e => print (Metadata_listener_exception e) st
  end.

(** The listener on what the pipe does, in order; [buffer] is a local of the
    function, outside both loops. *)
Definition listen (evs : list event) (st : state) : state :=
  fold_left (fun st ev => on_event ev st) evs st.

End Events.

(** ** The shape of [current_song] *)

Definition none_or_text (v : option pyval) : Prop :=
  v = Some PyNone \/ exists text, v = Some (PyStr text).

(** The dictionary has the five keys it starts with and no other; the three
    text fields and the picture path hold [None] or a string, and
    [last_update] holds the initial 0 or a float. *)
Record song_shape (m : gmap string pyval) : Prop := {
  shape_track : none_or_text (m !! "track_name");
  shape_comment : none_or_text (m !! "comment");
  shape_album : none_or_text (m !! "album");
  shape_picture : none_or_text (m !! "picture_file");
  shape_stamp :
    m !! "last_update" = Some (PyInt 0)
    \/ exists x, m !! "last_update" = Some (PyFloat x);
  shape_keys : forall k, is_Some (m !! k) <-> is_Some (current_song !! k)
}.

(** ** [PlayerUI.refresh_ui] *)

Module UI.

(** The exceptions that leave [refresh_ui]. *)
Inductive crash : Type :=
| TypeError
| Overflow
| OSError (e : Cover.os_error).

(** The truth value of a Python value. *)
Definition truthy (v : pyval) : bool :=
  match v with
  | PyNone => false
  | PyInt n => negb (n =? 0)
  | PyFloat x => negb (PrimFloat.eqb x 0)
  | PyStr text => match text with nil => false | _ :: _ => true end
  end.

(** [current_song.get(k)] *)
Definition get (m : gmap string pyval) (k : string) : pyval :=
  match m !! k with Some v => v | None => PyNone end.

(** The em dash shown for a missing field. *)
Definition DASH : pyval := PyStr (8212 :: nil).

(** [v or '—'] *)
Definition or_dash (v : pyval) : pyval := if truthy v then v else DASH.

(** [float(n)] for an integer: the nearest binary64 number, or
    [OverflowError]. *)
Definition float_of_int (n : Z) : float + crash :=
  let x := SF2Prim (binary_normalize prec emax n 0 false) in
  if PrimFloat.is_infinity x then inr Overflow else inl x.

(** [now - last_update] *)
Definition elapsed (now : float) (last_update : pyval) : float + crash :=
  match last_update with
  | PyFloat x => inl (now - x)%float
  | PyInt n =>
      match float_of_int n with
      | inl x => inl (now - x)%float
      | inr e => inr e
      end
  | PyNone | PyStr _ => inr TypeError
  end.

(** How lines 215-222 (open, convert, resize and show the image) end: the
    picture is shown, or an exception is caught, before or after line 221
    has replaced [current_image]. *)
Inductive rendering : Type :=
| Rendered
| Raised (image_replaced : bool).

(** What [refresh_ui] finds around it: the value of [time.time()], the
    directory [COVER_ART_DIR] as [most_recent_cover] sees it,
    [os.path.exists], and how lines 215-222 end. *)
Record env : Type := {
  now : float;
  cover_art_dir : Cover.directory;
  exists_path : list Z -> bool;
  exists_fd : Z -> bool + crash;
  renders : pyval -> rendering
}.

(** [os.path.exists(v)]: a string is a path, an integer a file descriptor,
    anything else is refused. *)
Definition os_path_exists (E : env) (v : pyval) : bool + crash :=
  match v with
  | PyStr path => inl (exists_path E path)
  | PyInt fd => exists_fd E fd
  | PyFloat _ | PyNone => inr TypeError
  end.

(** What the art label shows. *)
Inductive art : Type :=
| Blank
| Picture (path : pyval)
| No_art.

(** The widgets that [refresh_ui] writes. *)
Record widgets : Type := {
  track_var : pyval;
  artist_var : pyval;
  album_var : pyval;
  art_label : art;
  current_image : option pyval
}.

(** The widgets as [__init__] leaves them. *)
Definition created : widgets :=
  {| track_var := DASH; artist_var := DASH; album_var := DASH;
     art_label := Blank; current_image := None |}.

(** How [refresh_ui] ends: it has set the timer for its next run, or an
    exception left it before that. *)
Inductive outcome : Type :=
| Rescheduled (ui : widgets)
| Crashed (e : crash) (ui : widgets).

Definition widgets_of (o : outcome) : widgets :=
  match o with Rescheduled ui | Crashed _ ui => ui end.

Definition CONNECT_TRACK : pyval := PyStr (Str.codepoints "Connect to Play Music").
Definition CONNECT_ARTIST : pyval :=
  PyStr (Str.codepoints "Open AirPlay on your device and select 'Receiver'").
Definition CONNECT_ALBUM : pyval := PyStr (Str.codepoints "made by calvin guerrero").
Definition LOGO : pyval :=
  PyStr (Str.codepoints " /home/pi/airplay_player/airplaylogo.png").

(** [most_recent_cover()] as a Python value, or the exception that leaves
    it. *)
Definition most_recent (E : env) : pyval + crash :=
  match Cover.most_recent_cover COVER_ART_DIR (cover_art_dir E) with
  | inl (Some path) => inl (PyStr (Str.codepoints path))
  | inl None => inl PyNone
  | inr e => inr (OSError e)
  end.

(** Lines 213-226: show the picture or "No art". *)
Definition show_art (E : env) (picture_file : pyval) (ui : widgets) : outcome :=
  let no_art (image : option pyval) :=
    {| track_var := track_var ui; artist_var := artist_var ui;
       album_var := album_var ui; art_label := No_art;
       current_image := image |} in
  if truthy picture_file then
    match os_path_exists E picture_file with
    | inr e => Crashed e ui
    | inl false => Rescheduled (no_art (current_image ui))
    | inl true =>
        match renders E picture_file with
        | Rendered =>
            Rescheduled
              {| track_var := track_var ui; artist_var := artist_var ui;
                 album_var := album_var ui; art_label := Picture picture_file;
                 current_image := Some picture_file |}
        | Raised image_replaced =>
            Rescheduled
              (no_art (if image_replaced then Some picture_file
                       else current_image ui))
        end
    end
  else Rescheduled (no_art (current_image ui)).

(** [refresh_ui], lines 191-228, on the dictionary it reads under the lock. *)
Definition refresh_ui (E : env) (m : gmap string pyval) (ui : widgets)
  : outcome :=
  let track := or_dash (get m "track_name") in
  let artist := or_dash (get m "comment") in
  let album := or_dash (get m "album") in
  let picture_file := get m "picture_file" in
  let last_update :=
    match m !! "last_update" with Some v => v | None => PyInt 0 end in
  match elapsed (now E) last_update with
  | inr e => Crashed e ui
  | inl waited =>
      let stale := (5 <? waited)%float in
      let track := if stale then CONNECT_TRACK else track in
      let artist := if stale then CONNECT_ARTIST else artist in
      let album := if stale then CONNECT_ALBUM else album in
      let picture_file := if stale then LOGO else picture_file in
      match (if truthy picture_file then inl picture_file
             else most_recent E) with
      | inr e => Crashed e ui
      | inl picture_file =>
          show_art E picture_file
            {| track_var := track; artist_var := artist; album_var := album;
               art_label := art_label ui;
               current_image := current_image ui |}
      end
  end.

(** The variable that shows a text field. *)
Definition shown (field_name : string) (ui : widgets) : pyval :=
  if String.eqb field_name "track_name" then track_var ui
  else if String.eqb field_name "comment" then artist_var ui
  else album_var ui.

End UI.

(** ** Inputs used in the examples *)

Definition item (code length data : string) : string :=
  "<item><type>636f7265</type><code>" ++ code ++ "</code><length>" ++ length
  ++ "</length>" ++ Re.data_open ++ data ++ "</data></item>".

Fixpoint repeat_char (c : ascii) (n : nat) : string :=
  match n with
  | O => EmptyString
  | S n' => String c (repeat_char c n')
  end.

(** The part of the imaging library (Pillow) that reads and writes binary
    pixmaps, after its PPM plugin.  A pixmap is the magic P6, then the width,
    the height and the maximal value 255, each a plain decimal number of at
    most nine digits after white space, then one white-space byte and the
    raster of three bytes per pixel.  [open] reads the header only.  [save]
    first loads the raster, raising an error (image file is truncated) when
    it is short, before it opens the file; then it writes the header anew (P6,
    line feed, width, space, height, line feed, 255, line feed) and the
    raster, without what follows it.  The format is PPM, so that the
    listener saves under the extension ppm.  Payloads that are no such
    pixmap are refused here, though Pillow knows other formats: the examples
    use pixmaps only. *)
Module Tiny.

Record img : Type := { width : Z; height : Z; raster : list Z }.

(** The bytes 20, 09, 0A, 0B, 0C and 0D. *)
Definition whitespace (b : Z) : bool := (b =? 32) || ((9 <=? b) && (b <=? 13)).

Definition digit (b : Z) : bool := (48 <=? b) && (b <=? 57).

Fixpoint skip (l : list Z) : list Z :=
  match l with
  | b :: l' => if whitespace b then skip l' else l
  | nil => nil
  end.

(** The rest of a token of digits, at most [n] of them, up to the
    white-space byte that ends it, which is consumed, or the end of the
    data. *)
Fixpoint number (n : nat) (acc : Z) (l : list Z) : option (Z * list Z) :=
  match l with
  | nil => Some (acc, nil)
  | b :: l' =>
      if whitespace b then Some (acc, l')
      else if digit b then
        match n with
        | O => None
        | S n' => number n' (acc * 10 + (b - 48)) l'
        end
      else None
  end.

Definition token (l : list Z) : option (Z * list Z) :=
  match skip l with
  | b :: l' => if digit b then number 8 (b - 48) l' else None
  | nil => None
  end.

(** The header of a pixmap; the number of pixels is kept below the bound
    from which Pillow warns of a decompression bomb. *)
Definition header (bytes : list Z) : option img :=
  match bytes with
  | 80 :: 54 :: b :: l =>
      if whitespace b then
        match token l with
        | Some (w, l1) =>
            match token l1 with
            | Some (h, l2) =>
                match token l2 with
                | Some (maxval, l3) =>
                    if (0 <? w) && (0 <? h) && (w * h <=? 89478485)
                       && (maxval =? 255)
                    then Some {| width := w; height := h; raster := l3 |}
                    else None
                | None => None
                end
            | None => None
            end
        | None => None
        end
      else None
  | _ => None
  end.

Definition open (bytes : list Z) : result img :=
  match header bytes with
  | Some i => Ok i
  | None => Raise (Image_Error "cannot identify image file")
  end.

(** What the PPM encoder writes for a loaded image. *)
Definition encoded (i : img) : list Z :=
  (80 :: 54 :: 10 :: Str.codepoints (pretty (width i)))
  ++ (32 :: Str.codepoints (pretty (height i)))
  ++ (10 :: 50 :: 53 :: 53 :: 10 :: nil)
  ++ firstn (Z.to_nat (3 * width i * height i)) (raster i).

(** The message of the loader on a short raster: the bytes of the last,
    incomplete row were not processed. *)
Definition truncated (i : img) : string :=
  "image file is truncated ("
  ++ pretty (Z.of_nat (List.length (raster i)) mod (3 * width i))
  ++ " bytes not processed)".

(** Only the encoder of the extension ppm is here; Pillow picks the encoder
    by the extension. *)
Definition save (i : img) (path : string) (now : option (list Z))
  : save_outcome :=
  if Z.of_nat (List.length (raster i)) <? 3 * width i * height i
  then SaveFailed (Image_Error (truncated i)) None
  else if Str.endswith path ".ppm" then Saved (encoded i)
  else SaveFailed ValueError None.

Definition PIL : imaging :=
  {| image := img; Image_open := open;
     Image_format := fun _ => Some "PPM"; Image_save := save |}.

End Tiny.

(** The pixmap of one pixel (1, 2, 3) as the encoder writes it; the same
    with the pixel (4, 5, 6); the first with spaces for the line feeds of
    its header; and the first cut short by a byte.  Then the base64 of
    each. *)
Definition pixmap_a : list Z :=
  80 :: 54 :: 10 :: 49 :: 32 :: 49 :: 10 :: 50 :: 53 :: 53 :: 10
  :: 1 :: 2 :: 3 :: nil.
Definition pixmap_b : list Z :=
  80 :: 54 :: 10 :: 49 :: 32 :: 49 :: 10 :: 50 :: 53 :: 53 :: 10
  :: 4 :: 5 :: 6 :: nil.
Definition pixmap_spaced : list Z :=
  80 :: 54 :: 32 :: 49 :: 32 :: 49 :: 32 :: 50 :: 53 :: 53 :: 10
  :: 1 :: 2 :: 3 :: nil.
Definition pixmap_cut : list Z :=
  80 :: 54 :: 10 :: 49 :: 32 :: 49 :: 10 :: 50 :: 53 :: 53 :: 10
  :: 1 :: 2 :: nil.

Definition ppm_a : string := "UDYKMSAxCjI1NQoBAgM=".
Definition ppm_spaced : string := "UDYgMSAxIDI1NQoBAgM=".
Definition ppm_cut : string := "UDYKMSAxCjI1NQoBAg==".

(** A clock that advances by 2^-11 s at every reading from 1700000000.5. *)
Fixpoint fast_clock (n : nat) : float :=
  match n with
  | O => 1700000000.5%float
  | S n' => (fast_clock n' + 0.00048828125)%float
  end.


Definition hello_line : string := item "6d696e6d" "5" "SGVsbG8=".

(** A length of 4301 digits: in a frame without code and data tags, and in
    a frame that otherwise is the track title "Hello". *)
Definition overlong : string := repeat_char "1"%char 4301.
Definition overlong_bare_line : string :=
  "<item><length>" ++ overlong ++ "</length></item>".
Definition overlong_hello_line : string := item "6d696e6d" overlong "SGVsbG8=".

(** The title "Hello" with a space and an asterisk inside the payload, and
    with a character above U+007F inside it. *)
Definition hello_spaced_line : string := item "6d696e6d" "5" "SGVs bG*8=".
Definition hello_accent : string := "SGVs" ++ String "233"%char "bG8=".
Definition hello_accent_line : string := item "6d696e6d" "5" hello_accent.

Definition earlier_cover : string :=
  "/tmp/shairport-sync/.cache/coverart/cover_art_1699999999000.ppm".

Definition cover_1700000000500 : string :=
  "/tmp/shairport-sync/.cache/coverart/cover_art_1700000000500.ppm".

(** The title "Hello" with a declared length of 99, the title "World", and
    the "Hello" frame cut in two lines as the sender writes it. *)
Definition hello_99_line : string := item "6d696e6d" "99" "SGVsbG8=".
Definition world_line : string := item "6d696e6d" "5" "V29ybGQ=".
Definition hello_head_line : string :=
  "<item><type>636f7265</type><code>6d696e6d</code><length>5</length>"
  ++ String "010"%char EmptyString.
Definition hello_tail_line : string :=
  Re.data_open ++ "SGVsbG8=</data></item>" ++ String "010"%char EmptyString.

(** The three bytes ED A0 80, which would be the surrogate U+D800 were they
    UTF-8, as the title. *)
Definition surrogate_line : string := item "6d696e6d" "3" "7aCA".

(** An album frame of length 0 and a frame whose code is not in the table. *)
Definition album_zero_line : string := item "6173616c" "0" "QWxidW0=".
Definition other_code_line : string := item "70726772" "5" "SGVsbG8=".

(** The cover directory with an older picture, a newer text file and a
    picture in between, in that order; the path of that picture; and a
    directory whose only entry is a symbolic link to nothing. *)
Definition older_entry : Cover.entry :=
  {| Cover.name := "cover_art_1699999999000.jpeg"; Cover.st_mtime := 10 |}.
Definition notes_entry : Cover.entry :=
  {| Cover.name := "notes.txt"; Cover.st_mtime := 30 |}.
Definition newer_entry : Cover.entry :=
  {| Cover.name := "cover_art_1700000000500.jpeg"; Cover.st_mtime := 20 |}.
Definition cover_listing : list Cover.listed :=
  Cover.Stat older_entry :: Cover.Stat notes_entry :: Cover.Stat newer_entry
  :: nil.
Definition newer_cover : string :=
  "/tmp/shairport-sync/.cache/coverart/cover_art_1700000000500.jpeg".
Definition dangling_listing : list Cover.listed :=
  Cover.No_stat "x.png" Cover.FileNotFoundError :: nil.

(** A screen read at [now] on which every path exists and every picture
    renders, beside that directory. *)
Definition screen_at (now : float) : UI.env :=
  {| UI.now := now;
     UI.cover_art_dir := Cover.Listing cover_listing;
     UI.exists_path := fun _ => true;
     UI.exists_fd := fun _ => inl false;
     UI.renders := fun _ => UI.Rendered |}.

(** A line that by itself is a completed frame that the listener drops and
    whose length [int] accepts. *)
Definition unnoticed (max_str_digits : Z) (line : string) : Prop :=
  line <> EmptyString
  /\ Str.endswith (Str.strip line) "</item>" = true
  /\ dropped max_str_digits (Str.strip line)
  /\ exists len, frame_length max_str_digits (Str.strip line) = Ok len.

(** * Properties *)

(** ** The table *)

Lemma ESSENTIAL_FIELDS_values code field_name :
  ESSENTIAL_FIELDS !! code = Some field_name ->
  field_name = "track_name" \/ field_name = "comment"
  \/ field_name = "album" \/ field_name = "picture_data".
Proof.
  unfold ESSENTIAL_FIELDS. intros H.
  repeat (rewrite lookup_insert in H; case_decide;
          [ injection H as <-; tauto | ]).
  rewrite lookup_empty in H. discriminate.
Qed.

Lemma text_field_not_stamp code field_name :
  ESSENTIAL_FIELDS !! code = Some field_name ->
  field_name <> "last_update".
Proof.
  intros H. destruct (ESSENTIAL_FIELDS_values _ _ H) as [->|[->|[->| ->]]];
    discriminate.
Qed.

(** ** The extracted length is never negative *)

Lemma search_some {A} (match_at : string -> option A) s g :
  Re.search match_at s = Some g ->
  exists s', match_at s' = Some g.
Proof.
  induction s as [|c s IH]; simpl.
  - destruct (match_at EmptyString) eqn:E; [intros [= <-]; eauto | discriminate].
  - destruct (match_at (String c s)) eqn:E; [intros [= <-]; eauto | exact IH].
Qed.

Lemma digits_all_digits s : Re.all_digits (fst (Re.digits s)) = true.
Proof.
  induction s as [|c s IH]; simpl; [reflexivity|].
  destruct (Re.isdigit c) eqn:E; [|reflexivity].
  destruct (Re.digits s) as [ds tl]. simpl in *. now rewrite E.
Qed.

Lemma length_at_all_digits s ds :
  Re.length_at s = Some ds -> Re.all_digits ds = true.
Proof.
  unfold Re.length_at. destruct (Str.strip_prefix "<length>" s) as [rest|];
    [|discriminate].
  pose proof (digits_all_digits rest) as H.
  destruct (Re.digits rest) as [d tl]. simpl in H.
  destruct (negb (String.eqb d EmptyString) && Str.startswith tl "</length>");
    [intros [= <-]; exact H | discriminate].
Qed.

Lemma digits_value_nonneg ds : forall acc,
  Re.all_digits ds = true -> 0 <= acc -> 0 <= Int.digits_value acc ds.
Proof.
  induction ds as [|c ds IH]; simpl; intros acc Hd Hacc; [exact Hacc|].
  apply andb_true_iff in Hd as [Hc Hd]. apply IH; [exact Hd|].
  unfold Re.isdigit in Hc. apply andb_true_iff in Hc as [Hlo _].
  apply Z.leb_le in Hlo. lia.
Qed.

Lemma frame_length_nonneg max_str_digits buf len :
  frame_length max_str_digits buf = Ok len -> 0 <= len.
Proof.
  unfold frame_length.
  destruct (Re.search Re.length_at buf) as [ds|] eqn:E; [|intros [= <-]; lia].
  apply search_some in E as (s' & E). apply length_at_all_digits in E.
  unfold Int.of_digits.
  destruct (_ && _); [discriminate|]. intros [= <-].
  now apply digits_value_nonneg.
Qed.

(** Without a limit on the digits, [int] never raises. *)
Lemma frame_length_total max_str_digits buf :
  max_str_digits <= 0 ->
  exists len, frame_length max_str_digits buf = Ok len.
Proof.
  intros Hmax. unfold frame_length, Int.of_digits.
  destruct (Re.search Re.length_at buf) as [ds|]; [|eauto].
  destruct (Z.ltb_spec 0 max_str_digits) as [H|_]; [lia|].
  rewrite andb_false_r. simpl. eauto.
Qed.

(** ** The first length tag of a buffer stays the first when text is
    appended *)

Lemma strip_prefix_app p : forall s rest x,
  Str.strip_prefix p s = Some rest ->
  Str.strip_prefix p (s ++ x) = Some (rest ++ x).
Proof.
  induction p as [|a p IH]; intros s rest x; simpl.
  - now intros [= ->].
  - destruct s as [|b s]; [discriminate|]. simpl.
    destruct (Ascii.eqb a b); [apply IH|discriminate].
Qed.

Lemma strip_prefix_eq p : forall s rest,
  Str.strip_prefix p s = Some rest -> s = p ++ rest.
Proof.
  induction p as [|a p IH]; intros s rest; simpl.
  - now intros [= ->].
  - destruct s as [|b s]; [discriminate|].
    destruct (Ascii.eqb_spec a b) as [->|]; [|discriminate].
    intros H. change (String b s = String b (p ++ rest)). f_equal. now apply IH.
Qed.

(** A string that lacks only its end to start with [p] is a beginning of
    [p]. *)
Lemma strip_prefix_short p : forall t x r,
  Str.strip_prefix p (t ++ x) = Some r ->
  Str.strip_prefix p t = None ->
  exists q, p = t ++ q.
Proof.
  induction p as [|a p IH]; intros t x r; simpl.
  - discriminate.
  - destruct t as [|b t]; [intros _ _; now exists (String a p)|]. simpl.
    destruct (Ascii.eqb_spec a b) as [->|]; [|discriminate].
    intros H1 H2. destruct (IH t x r H1 H2) as [q ->]. now exists q.
Qed.

Lemma digits_app_nonempty r : forall ds c t x,
  Re.digits r = (ds, String c t) ->
  Re.digits (r ++ x) = (ds, String c t ++ x).
Proof.
  induction r as [|a r IH]; intros ds c t x; simpl; [discriminate|].
  destruct (Re.isdigit a).
  - destruct (Re.digits r) as [ds' tl'] eqn:E. intros [= <- ->].
    now rewrite (IH ds' c t x eq_refl).
  - now intros [= <- <- <-].
Qed.

Lemma isdigit_not_lt a : Re.isdigit a = true -> Ascii.eqb "<"%char a = false.
Proof.
  intros H. destruct (Ascii.eqb_spec "<"%char a) as [<-|]; [|reflexivity].
  discriminate.
Qed.

Lemma startswith_digit a r :
  Re.isdigit a = true -> Str.startswith (String a r) "<length>" = false.
Proof.
  intros Ha. unfold Str.startswith.
  change (Str.strip_prefix "<length>" (String a r))
    with (if Ascii.eqb "<"%char a then Str.strip_prefix "length>" r else None).
  now rewrite (isdigit_not_lt a Ha).
Qed.

(** A run of digits hides no opening tag. *)
Lemma has_open_digits r : forall ds tl,
  Re.digits r = (ds, tl) -> Re.has_open r = Re.has_open tl.
Proof.
  induction r as [|a r IH]; intros ds tl H.
  - injection H as <- <-. reflexivity.
  - cbn [Re.digits] in H. destruct (Re.isdigit a) eqn:Ha.
    + destruct (Re.digits r) as [ds' tl'] eqn:E. injection H as <- <-.
      cbn [Re.has_open]. rewrite (startswith_digit a r Ha).
      exact (IH ds' tl' eq_refl).
    + injection H as <- <-. reflexivity.
Qed.

(** Nor does a beginning of the closing tag. *)
Lemma closing_prefix_no_open t q : "</length>" = t ++ q -> Re.has_open t = false.
Proof.
  intros H.
  do 9 (destruct t as [|? t]; [reflexivity|simpl in H; injection H as <- H]).
  destruct t; [reflexivity|discriminate].
Qed.

Lemma opening_prefix_no_open t q c t' :
  "<length>" = t ++ q -> t = String c t' -> Re.has_open t' = false.
Proof.
  intros H ->. simpl in H. injection H as <- H.
  do 7 (destruct t' as [|? t']; [reflexivity|simpl in H; injection H as <- H]).
  destruct t'; [reflexivity|discriminate].
Qed.

Lemma search_has_open s ds :
  Re.search Re.length_at s = Some ds -> Re.has_open s = true.
Proof.
  induction s as [|c s IH]; simpl Re.search.
  - discriminate.
  - destruct (Re.length_at (String c s)) as [g|] eqn:E.
    + intros _. cbn [Re.has_open]. unfold Re.length_at in E. unfold Str.startswith.
      destruct (Str.strip_prefix "<length>" (String c s)); [reflexivity|discriminate].
    + intros H. cbn [Re.has_open]. rewrite (IH H). apply orb_true_r.
Qed.

(** A match at the head is a match at the head of the longer string. *)
Lemma length_at_app s x g :
  Re.length_at s = Some g -> Re.length_at (s ++ x) = Some g.
Proof.
  unfold Re.length_at.
  destruct (Str.strip_prefix "<length>" s) as [r|] eqn:Hr; [|discriminate].
  rewrite (strip_prefix_app _ _ _ x Hr).
  destruct (Re.digits r) as [ds tl] eqn:Hd.
  destruct (negb (String.eqb ds EmptyString)) eqn:Hne; [|discriminate].
  unfold Str.startswith.
  destruct (Str.strip_prefix "</length>" tl) as [u|] eqn:Hu; [|discriminate].
  intros [= <-]. destruct tl as [|c t]; [discriminate|].
  rewrite (digits_app_nonempty _ _ _ _ x Hd), Hne.
  now rewrite (strip_prefix_app _ _ _ x Hu).
Qed.

(** If appending text creates a match at the head, no opening tag follows
    the first character. *)
Lemma no_later_open c s' x g :
  Re.length_at (String c s') = None ->
  Re.length_at (String c s' ++ x) = Some g ->
  Re.has_open s' = false.
Proof.
  unfold Re.length_at.
  destruct (Str.strip_prefix "<length>" (String c s')) as [r|] eqn:Hr.
  - rewrite (strip_prefix_app _ _ _ x Hr).
    apply strip_prefix_eq in Hr. simpl in Hr. injection Hr as -> ->.
    assert (Hs : forall u, Re.has_open ("length>" ++ u) = Re.has_open u)
      by reflexivity.
    rewrite Hs.
    destruct (Re.digits r) as [ds tl] eqn:Hd.
    rewrite (has_open_digits r ds tl Hd).
    destruct tl as [|a t]; [reflexivity|].
    rewrite (digits_app_nonempty _ _ _ _ x Hd).
    destruct (negb (String.eqb ds EmptyString)); [|discriminate].
    cbn [andb]. unfold Str.startswith.
    destruct (Str.strip_prefix "</length>" (String a t)) eqn:H1; [discriminate|].
    destruct (Str.strip_prefix "</length>" (String a t ++ x)) eqn:H2;
      [|discriminate].
    intros _ _. destruct (strip_prefix_short _ _ _ _ H2 H1) as [q Hq].
    exact (closing_prefix_no_open _ _ Hq).
  - destruct (Str.strip_prefix "<length>" (String c s' ++ x)) as [r|] eqn:Hx;
      [|discriminate].
    intros _ _. destruct (strip_prefix_short _ _ _ _ Hx Hr) as [q Hq].
    exact (opening_prefix_no_open _ _ _ _ Hq eq_refl).
Qed.

Lemma search_length_app s x ds :
  Re.search Re.length_at s = Some ds ->
  Re.search Re.length_at (s ++ x) = Some ds.
Proof.
  induction s as [|c s IH].
  - discriminate.
  - simpl Re.search. change (String c s ++ x) with (String c (s ++ x)).
    destruct (Re.length_at (String c s)) as [g|] eqn:E.
    + intros [= <-].
      change (String c (s ++ x)) with (String c s ++ x).
      now rewrite (length_at_app _ x _ E).
    + intros H.
      destruct (Re.length_at (String c (s ++ x))) as [g|] eqn:E2; [|now apply IH].
      change (String c (s ++ x)) with (String c s ++ x) in E2.
      pose proof (no_later_open c s x g E E2) as Hno.
      rewrite (search_has_open s ds H) in Hno. discriminate.
Qed.

(** A length that [int] refuses is refused again whatever is appended. *)
Lemma frame_length_refused_app max_str_digits buf x e :
  frame_length max_str_digits buf = Raise e ->
  frame_length max_str_digits (buf ++ x) = Raise e.
Proof.
  unfold frame_length.
  destruct (Re.search Re.length_at buf) as [ds|] eqn:E; [|discriminate].
  now rewrite (search_length_app buf x ds E).
Qed.

(** ** The frame body, branch by branch *)

Section ListenerFacts.

Variable PIL : imaging.
Variable max_str_digits : Z.
Variable clock : nat -> float.
Variable cover_dir : string.

Local Abbreviation process_frame := (process_frame PIL max_str_digits clock cover_dir).
Local Abbreviation read_line := (read_line PIL max_str_digits clock cover_dir).
Local Abbreviation decode_item := (decode_item PIL clock cover_dir).
Local Abbreviation save_picture := (save_picture PIL clock cover_dir).
Local Abbreviation routed := (routed max_str_digits).
Local Abbreviation dropped := (dropped max_str_digits).
Local Abbreviation frame_length := (frame_length max_str_digits).

Lemma process_frame_routed st field_name data_b64 :
  routed (buffer st) field_name data_b64 ->
  process_frame st
  = (None, set_buffer EmptyString (decode_item field_name data_b64 st)).
Proof.
  intros (len & code & Hlen & Hpos & Hcode & Hdata & Hfield).
  unfold process_frame. rewrite Hlen.
  destruct (Z.eqb_spec len 0) as [->|_]; [lia|].
  now rewrite Hcode, Hdata, Hfield.
Qed.

Lemma process_frame_dropped st :
  dropped (buffer st) ->
  process_frame st = (None, set_buffer EmptyString st)
  \/ exists e, frame_length (buffer st) = Raise e /\ process_frame st = (Some e, st).
Proof.
  unfold process_frame. intros Hd.
  destruct (frame_length (buffer st)) as [len|e] eqn:Hlen; [left|right; eauto].
  destruct (Z.eqb_spec len 0) as [->|Hne]; [reflexivity|].
  destruct Hd as [H|[H|[H|(code & Hc & Hf)]]].
  - congruence.
  - now rewrite H.
  - rewrite H. now destruct (Re.search Re.code_at (buffer st)).
  - rewrite Hc, Hf. now destruct (Re.search Re.data_at (buffer st)).
Qed.

(** The three ways through the frame body. *)
Lemma process_frame_cases st :
  (exists e, frame_length (buffer st) = Raise e
             /\ process_frame st = (Some e, st))
  \/ (dropped (buffer st)
      /\ process_frame st = (None, set_buffer EmptyString st))
  \/ (exists field_name data_b64,
        routed (buffer st) field_name data_b64
        /\ process_frame st
           = (None, set_buffer EmptyString (decode_item field_name data_b64 st))).
Proof.
  unfold process_frame.
  destruct (frame_length (buffer st)) as [len|e] eqn:Hlen; [|left; eauto].
  right.
  destruct (Z.eqb_spec len 0) as [->|Hne]; [left; split; [now left|reflexivity]|].
  destruct (Re.search Re.code_at (buffer st)) as [code|] eqn:Hc;
    [|left; split; [right; now left|reflexivity]].
  destruct (Re.search Re.data_at (buffer st)) as [data|] eqn:Hd;
    [|left; split; [right; right; now left|reflexivity]].
  destruct (ESSENTIAL_FIELDS !! code) as [field_name|] eqn:Hf.
  - right. exists field_name, data. split; [|reflexivity].
    exists len, code. pose proof (frame_length_nonneg _ _ _ Hlen).
    repeat split; try assumption. lia.
  - left. split; [|reflexivity]. right; right; right. eauto.
Qed.

Lemma read_line_completes line st :
  completes line st = true ->
  read_line line st
  = match process_frame (set_buffer (frame line st) st) with
    | (None, st') => st'
    | (Some e, st') => print (Metadata_listener_exception e) st'
    end.
Proof.
  unfold completes, read_line, frame. intros H.
  apply andb_true_iff in H as [Hne Hend].
  apply negb_true_iff in Hne. rewrite Hne. simpl buffer. now rewrite Hend.
Qed.

Lemma read_line_incomplete line st :
  completes line st = false ->
  read_line line st = st
  \/ read_line line st = set_buffer (frame line st) st.
Proof.
  unfold completes, read_line, frame. intros H.
  destruct (String.eqb line EmptyString); [now left|]. simpl in H.
  simpl buffer. rewrite H. now right.
Qed.

(** A routed frame goes to [decode_item], and the buffer is emptied. *)
Lemma read_line_routed line st field_name data_b64 :
  completes line st = true ->
  routed (frame line st) field_name data_b64 ->
  read_line line st
  = set_buffer EmptyString
      (decode_item field_name data_b64 (set_buffer (frame line st) st)).
Proof.
  intros Hc Hr. rewrite (read_line_completes _ _ Hc).
  now rewrite (process_frame_routed (set_buffer (frame line st) st) _ _ Hr).
Qed.

Lemma decode_item_text field_name data_b64 st bytes :
  Base64.b64decode data_b64 = Ok bytes ->
  field_name <> "picture_data" ->
  decode_item field_name data_b64 st
  = {| buffer := buffer st;
       song := <["last_update" := PyFloat (clock (clock_reads st))]>
                 (<[field_name := PyStr (Utf8.decode_replace bytes)]> (song st));
       files := files st; stdout := stdout st;
       clock_reads := S (clock_reads st) |}.
Proof.
  intros Hb Hf. unfold decode_item. rewrite Hb.
  destruct (String.eqb_spec field_name "picture_data") as [|_]; [contradiction|].
  reflexivity.
Qed.

Lemma decode_item_picture data_b64 st bytes :
  Base64.b64decode data_b64 = Ok bytes ->
  decode_item "picture_data" data_b64 st = save_picture bytes st.
Proof. intros Hb. unfold decode_item. now rewrite Hb. Qed.

Lemma save_picture_saved bytes st img ts content :
  Image_open PIL bytes = Ok img ->
  Int.of_float (clock (clock_reads st) * 1000)%float = Ok ts ->
  Image_save PIL img (cover_art_file cover_dir ts (extension PIL img))
    (files st !! cover_art_file cover_dir ts (extension PIL img))
  = Saved content ->
  save_picture bytes st
  = {| buffer := buffer st;
       song := <["last_update" := PyFloat (clock (S (clock_reads st)))]>
                 (<["picture_file" :=
                      PyStr (Str.codepoints
                               (cover_art_file cover_dir ts (extension PIL img)))]>
                    (song st));
       files := <[cover_art_file cover_dir ts (extension PIL img) := content]>
                  (files st);
       stdout := stdout st;
       clock_reads := S (S (clock_reads st)) |}.
Proof.
  intros Ho Ht Hs. unfold save_picture. rewrite Ho. simpl.
  rewrite Ht. simpl. now rewrite Hs.
Qed.

(** A failure leaves the dictionary alone and prints one line. *)
Lemma decode_item_failure field_name data_b64 st m :
  decode_failure PIL clock cover_dir field_name data_b64 st m ->
  song (decode_item field_name data_b64 st) = song st
  /\ stdout (decode_item field_name data_b64 st) = (stdout st ++ m :: nil)%list.
Proof.
  intros [e Hb|bytes e -> Hb Ho|bytes img e -> Hb Ho Ht
         |bytes img ts e partial -> Hb Ho Ht Hs].
  - unfold decode_item. rewrite Hb. now split.
  - rewrite (decode_item_picture _ _ _ Hb). unfold save_picture.
    rewrite Ho. now split.
  - rewrite (decode_item_picture _ _ _ Hb). unfold save_picture.
    rewrite Ho. simpl. rewrite Ht. now split.
  - rewrite (decode_item_picture _ _ _ Hb). unfold save_picture.
    rewrite Ho. simpl. rewrite Ht. simpl. rewrite Hs.
    now destruct partial.
Qed.

(** Every routed frame either makes its update or fails as described. *)
Lemma decode_item_cases field_name data_b64 st :
  (exists t, update_made PIL clock cover_dir field_name data_b64 st t)
  \/ (exists m, decode_failure PIL clock cover_dir field_name data_b64 st m).
Proof.
  destruct (Base64.b64decode data_b64) as [bytes|e] eqn:Hb;
    [|right; eexists; eapply base64_fails; eassumption].
  destruct (String.eqb_spec field_name "picture_data") as [->|Hf];
    [|left; eexists; eapply text_made; eassumption].
  destruct (Image_open PIL bytes) as [img|e] eqn:Ho;
    [|right; eexists; eapply open_fails; eauto].
  destruct (Int.of_float (clock (clock_reads st) * 1000)%float) as [ts|e] eqn:Ht;
    [|right; eexists; eapply stamp_fails; eauto].
  destruct (Image_save PIL img (cover_art_file cover_dir ts (extension PIL img))
              (files st !! cover_art_file cover_dir ts (extension PIL img)))
    as [content|e partial] eqn:Hs.
  - left; eexists; eapply picture_made; eauto.
  - right; eexists; eapply save_fails; eauto.
Qed.

Lemma decode_item_update field_name data_b64 st t code :
  ESSENTIAL_FIELDS !! code = Some field_name ->
  update_made PIL clock cover_dir field_name data_b64 st t ->
  song (decode_item field_name data_b64 st) !! "last_update" = Some (PyFloat t).
Proof.
  intros Htab [bytes Hf Hb|bytes img ts content -> Hb Ho Ht Hs].
  - rewrite (decode_item_text _ _ _ _ Hb Hf). simpl. apply lookup_insert_eq.
  - rewrite (decode_item_picture _ _ _ Hb),
      (save_picture_saved _ _ _ _ _ Ho Ht Hs). simpl. apply lookup_insert_eq.
Qed.

(** C1. A completed frame routed to a text field whose payload decodes sets
    that field to the UTF-8 decoding, with replacement, of the decoded bytes
    and stamps [last_update] with the value [time.time()] returns at the
    update; the other keys are untouched (the dictionary is the old one with
    these two keys assigned). *)
Theorem text_field_updated line st field_name data_b64 bytes :
  completes line st = true ->
  routed (frame line st) field_name data_b64 ->
  field_name <> "picture_data" ->
  Base64.b64decode data_b64 = Ok bytes ->
  let st' := read_line line st in
  let text := Utf8.decode_replace bytes in
  let now := clock (clock_reads st) in
  song st' !! field_name = Some (PyStr text)
  /\ song st' !! "last_update" = Some (PyFloat now)
  /\ song st' = <["last_update" := PyFloat now]>
                  (<[field_name := PyStr text]> (song st)).
Proof.
  intros Hc Hr Hf Hb st' text now. subst st'.
  pose proof Hr as (len & code & _ & _ & _ & _ & Htab).
  rewrite (read_line_routed _ _ _ _ Hc Hr), (decode_item_text _ _ _ _ Hb Hf).
  simpl.
  split; [|split; [|reflexivity]].
  - rewrite lookup_insert_ne by (intros E; symmetry in E; revert E;
                                  exact (text_field_not_stamp _ _ Htab)).
    apply lookup_insert_eq.
  - apply lookup_insert_eq.
Qed.

Lemma update_made_buffer b field_name data_b64 st t :
  update_made PIL clock cover_dir field_name data_b64 st t ->
  update_made PIL clock cover_dir field_name data_b64 (set_buffer b st) t.
Proof.
  intros [bytes Hf Hb|bytes img ts content Hf Hb Ho Ht Hs].
  - exact (text_made PIL clock cover_dir _ _ (set_buffer b st) bytes Hf Hb).
  - exact (picture_made PIL clock cover_dir _ _ (set_buffer b st)
             bytes img ts content Hf Hb Ho Ht Hs).
Qed.

Lemma decode_failure_buffer b field_name data_b64 st m :
  decode_failure PIL clock cover_dir field_name data_b64 st m ->
  decode_failure PIL clock cover_dir field_name data_b64 (set_buffer b st) m.
Proof.
  intros [e Hb|bytes e Hf Hb Ho|bytes img e Hf Hb Ho Ht
         |bytes img ts e partial Hf Hb Ho Ht Hs].
  - exact (base64_fails PIL clock cover_dir _ _ (set_buffer b st) e Hb).
  - exact (open_fails PIL clock cover_dir _ _ (set_buffer b st) bytes e Hf Hb Ho).
  - exact (stamp_fails PIL clock cover_dir _ _ (set_buffer b st)
             bytes img e Hf Hb Ho Ht).
  - exact (save_fails PIL clock cover_dir _ _ (set_buffer b st)
             bytes img ts e partial Hf Hb Ho Ht Hs).
Qed.

(** C3 (as amended). A completed picture frame whose payload decodes, is
    opened as an image and is saved without an exception leaves, at
    [cover_dir]/cover_art_<ts>.<ext>, the bytes that [img.save] wrote; [ts] is
    [int(time.time() * 1000)], [ext] the lower-cased format or "jpg".  The
    dictionary gets that path under [picture_file] and the next clock value
    under [last_update]. *)
Theorem picture_saved line st data_b64 bytes img ts content :
  completes line st = true ->
  routed (frame line st) "picture_data" data_b64 ->
  Base64.b64decode data_b64 = Ok bytes ->
  Image_open PIL bytes = Ok img ->
  Int.of_float (clock (clock_reads st) * 1000)%float = Ok ts ->
  let ext := match Image_format PIL img with
             | Some f => if String.eqb f EmptyString then "jpg" else Str.lower f
             | None => "jpg"
             end in
  let img_file :=
    os_path_join cover_dir ("cover_art_" ++ pretty ts ++ "." ++ ext) in
  Image_save PIL img img_file (files st !! img_file) = Saved content ->
  let st' := read_line line st in
  files st' = <[img_file := content]> (files st)
  /\ song st' !! "picture_file" = Some (PyStr (Str.codepoints img_file))
  /\ song st' !! "last_update" = Some (PyFloat (clock (S (clock_reads st))))
  /\ song st' = <["last_update" := PyFloat (clock (S (clock_reads st)))]>
                  (<["picture_file" := PyStr (Str.codepoints img_file)]>
                     (song st)).
Proof.
  intros Hc Hr Hb Ho Ht ext img_file Hs st'. subst st'.
  rewrite (read_line_routed _ _ _ _ Hc Hr), (decode_item_picture _ _ _ Hb).
  rewrite (save_picture_saved bytes (set_buffer (frame line st) st)
             img ts content Ho Ht Hs).
  simpl. fold ext. fold img_file.
  split; [reflexivity|]. split; [|split; [|reflexivity]].
  - rewrite lookup_insert_ne by discriminate. apply lookup_insert_eq.
  - apply lookup_insert_eq.
Qed.

(** C4. [last_update] is stamped by every update that succeeds, text or
    picture, and when no update succeeds the whole dictionary, [last_update]
    included, is what it was: whether the line does not complete a frame, the
    frame is dropped, its decoding or saving fails, or an exception leaves
    the frame body. *)
Theorem last_update_only_on_success line st :
  let st' := read_line line st in
  (forall field_name data_b64 t,
      completes line st = true ->
      routed (frame line st) field_name data_b64 ->
      update_made PIL clock cover_dir field_name data_b64 st t ->
      song st' !! "last_update" = Some (PyFloat t))
  /\ ((forall field_name data_b64 t,
          ~ (completes line st = true
             /\ routed (frame line st) field_name data_b64
             /\ update_made PIL clock cover_dir field_name data_b64 st t)) ->
      song st' = song st).
Proof.
  intros st'. subst st'. split.
  - intros field_name data_b64 t Hc Hr Hu.
    rewrite (read_line_routed _ _ _ _ Hc Hr).
    pose proof Hr as (len & code & _ & _ & _ & _ & Htab).
    simpl. apply (decode_item_update _ _ _ _ code Htab).
    now apply update_made_buffer.
  - intros Hnone.
    destruct (completes line st) eqn:Hc.
    + rewrite (read_line_completes _ _ Hc).
      destruct (process_frame_cases (set_buffer (frame line st) st))
        as [(e & _ & ->)|[(_ & ->)|(field_name & data_b64 & Hr & ->)]];
        [reflexivity|reflexivity|].
      simpl.
      destruct (decode_item_cases field_name data_b64
                  (set_buffer (frame line st) st)) as [(t & Hu)|(m & Hm)].
      * exfalso. apply (Hnone field_name data_b64 t). repeat split; try assumption.
        destruct Hu as [bytes Hf Hb|bytes img ts content Hf Hb Ho Ht Hs].
        -- exact (text_made PIL clock cover_dir _ _ st bytes Hf Hb).
        -- exact (picture_made PIL clock cover_dir _ _ st
                    bytes img ts content Hf Hb Ho Ht Hs).
      * exact (proj1 (decode_item_failure _ _ _ _ Hm)).
    + destruct (read_line_incomplete _ _ Hc) as [-> | ->]; reflexivity.
Qed.

(** A failing routed frame: the dictionary and the files of the picture
    apart, the state is the old one with one more line printed. *)
Lemma read_line_failure line st field_name data_b64 m :
  completes line st = true ->
  routed (frame line st) field_name data_b64 ->
  decode_failure PIL clock cover_dir field_name data_b64 st m ->
  song (read_line line st) = song st
  /\ stdout (read_line line st) = (stdout st ++ m :: nil)%list
  /\ buffer (read_line line st) = EmptyString.
Proof.
  intros Hc Hr Hm. rewrite (read_line_routed _ _ _ _ Hc Hr). simpl.
  destruct (decode_item_failure field_name data_b64
              (set_buffer (frame line st) st) m
              (decode_failure_buffer _ _ _ _ _ Hm)) as [Hsong Hout].
  now rewrite Hsong, Hout.
Qed.

(** C5. When the payload of a routed frame is not base64, or a picture
    cannot be opened or saved, the dictionary keeps all its values, the
    failure is printed, no exception leaves the frame body and the buffer is
    empty for the next frame. *)
Theorem failure_retains_state line st field_name data_b64 m :
  completes line st = true ->
  routed (frame line st) field_name data_b64 ->
  decode_failure PIL clock cover_dir field_name data_b64 st m ->
  let st' := read_line line st in
  song st' = song st
  /\ stdout st' = (stdout st ++ m :: nil)%list
  /\ buffer st' = EmptyString
  /\ fst (process_frame (set_buffer (frame line st) st)) = None.
Proof.
  intros Hc Hr Hm st'. subst st'.
  destruct (read_line_failure _ _ _ _ _ Hc Hr Hm) as (Hsong & Hout & Hbuf).
  repeat split; try assumption.
  now rewrite (process_frame_routed (set_buffer (frame line st) st) _ _ Hr).
Qed.



(** ** Frames that are dropped, and the buffer *)

(** A dropped frame whose length is extracted leaves everything but the
    buffer as it was, prints nothing, and empties the buffer. *)
Lemma dropped_frame_silent line st len :
  completes line st = true ->
  dropped (frame line st) ->
  frame_length (frame line st) = Ok len ->
  read_line line st = set_buffer EmptyString st.
Proof.
  intros Hc Hd Hlen. rewrite (read_line_completes _ _ Hc).
  destruct (process_frame_dropped (set_buffer (frame line st) st) Hd)
    as [-> | (e & He & _)]; [reflexivity|].
  simpl in He. congruence.
Qed.

(** Whatever happens, a dropped frame leaves the dictionary and the files
    alone. *)
Lemma dropped_frame_state line st :
  completes line st = true ->
  dropped (frame line st) ->
  song (read_line line st) = song st /\ files (read_line line st) = files st.
Proof.
  intros Hc Hd. rewrite (read_line_completes _ _ Hc).
  destruct (process_frame_dropped (set_buffer (frame line st) st) Hd)
    as [-> | (e & _ & ->)]; now split.
Qed.

(** When [int] accepts the length, the buffer is empty after the frame. *)
Lemma completed_frame_resets_buffer line st len :
  completes line st = true ->
  frame_length (frame line st) = Ok len ->
  buffer (read_line line st) = EmptyString.
Proof.
  intros Hc Hlen. rewrite (read_line_completes _ _ Hc).
  destruct (process_frame_cases (set_buffer (frame line st) st))
    as [(e & He & _)|[(_ & ->)|(field_name & data_b64 & _ & ->)]];
    [simpl in He; congruence|reflexivity|reflexivity].
Qed.

(** When [int] refuses the length, the exception leaves the frame body: the
    outer handler prints it and the buffer keeps the frame. *)
Lemma refused_length_keeps_buffer line st e :
  completes line st = true ->
  frame_length (frame line st) = Raise e ->
  read_line line st
  = print (Metadata_listener_exception e) (set_buffer (frame line st) st).
Proof.
  intros Hc Hlen. rewrite (read_line_completes _ _ Hc).
  unfold process_frame. simpl buffer. now rewrite Hlen.
Qed.

(** From then on the listener is stuck: whatever lines follow, the length
    found in the buffer is the refused one, the dictionary and the files
    never change again and the buffer is never emptied. *)
Lemma read_line_refused line st e :
  frame_length (buffer st) = Raise e ->
  song (read_line line st) = song st
  /\ files (read_line line st) = files st
  /\ frame_length (buffer (read_line line st)) = Raise e.
Proof.
  intros Hlen. unfold read_line.
  destruct (String.eqb line EmptyString); [now repeat split|].
  pose proof (frame_length_refused_app _ _ (Str.strip line) _ Hlen) as Hlen'.
  cbn [buffer set_buffer].
  destruct (Str.endswith (buffer st ++ Str.strip line) "</item>").
  - unfold process_frame. cbn [buffer set_buffer]. rewrite Hlen'.
    now repeat split.
  - now repeat split.
Qed.

Lemma refused_length_wedges lines : forall st e,
  frame_length (buffer st) = Raise e ->
  song (metadata_listener PIL max_str_digits clock cover_dir lines st) = song st
  /\ files (metadata_listener PIL max_str_digits clock cover_dir lines st)
     = files st
  /\ buffer (metadata_listener PIL max_str_digits clock cover_dir lines st)
     <> EmptyString.
Proof.
  induction lines as [|line lines IH]; intros st e Hlen; simpl.
  - repeat split. intros Hb. rewrite Hb in Hlen. discriminate.
  - destruct (read_line_refused line st e Hlen) as (Hsong & Hfiles & Hlen').
    destruct (IH _ e Hlen') as (Hs & Hf & Hb).
    unfold metadata_listener in *. now rewrite Hs, Hf.
Qed.

(** On an interpreter without the limit on digits both hold of every
    completed frame: the buffer is emptied, and a dropped frame is silent. *)
Lemma buffer_reset_without_limit line st :
  max_str_digits <= 0 ->
  completes line st = true ->
  buffer (read_line line st) = EmptyString.
Proof.
  intros Hmax Hc.
  destruct (frame_length_total max_str_digits (frame line st) Hmax) as [len Hlen].
  exact (completed_frame_resets_buffer line st len Hc Hlen).
Qed.

Lemma dropped_silent_without_limit line st :
  max_str_digits <= 0 ->
  completes line st = true ->
  dropped (frame line st) ->
  read_line line st = set_buffer EmptyString st.
Proof.
  intros Hmax Hc Hd.
  destruct (frame_length_total max_str_digits (frame line st) Hmax) as [len Hlen].
  exact (dropped_frame_silent line st len Hc Hd Hlen).
Qed.

End ListenerFacts.

(** The example of the specification: the track-title code with the base64
    of "Hello". *)
Lemma hello_track_name :
  song (read_line Tiny.PIL 4300 fast_clock COVER_ART_DIR hello_line (initial ∅))
    !! "track_name"
  = Some (PyStr (Str.codepoints "Hello")).
Proof.
  refine (proj1 (text_field_updated Tiny.PIL 4300 fast_clock COVER_ART_DIR
                   hello_line (initial ∅) "track_name" "SGVsbG8="
                   (Str.codepoints "Hello") _ _ _ _)).
  - vm_compute. reflexivity.
  - exists 5, "6d696e6d". vm_compute. repeat split; reflexivity.
  - discriminate.
  - vm_compute. reflexivity.
Defined.

(** ** The listener run on examples *)

Local Abbreviation run_line :=
  (read_line Tiny.PIL 4300 fast_clock COVER_ART_DIR).

(** A picture frame stored: the pixmap of one pixel read at 1700000000.5. *)
Lemma pixmap_a_saved :
  files (run_line (item "50494354" "14" ppm_a) (initial ∅))
  = <[cover_1700000000500 := pixmap_a]> ∅.
Proof.
  refine (proj1 (picture_saved Tiny.PIL 4300 fast_clock COVER_ART_DIR
                   (item "50494354" "14" ppm_a) (initial ∅) ppm_a
                   pixmap_a
                   {| Tiny.width := 1; Tiny.height := 1;
                      Tiny.raster := 1 :: 2 :: 3 :: nil |}
                   1700000000500 pixmap_a
                   _ _ _ _ _ _)).
  - vm_compute. reflexivity.
  - exists 14, "50494354". vm_compute. repeat split; reflexivity.
  - vm_compute. reflexivity.
  - vm_compute. reflexivity.
  - vm_compute. reflexivity.
  - vm_compute. reflexivity.
Defined.

(** C3 (as stated) fails.  A payload that [Image.open] accepts need not be
    stored: the pixmap cut short by a byte is opened, [save] raises, no file
    appears and the dictionary keeps its values.  And what is stored is what
    [save] writes, not the payload: the pixmap whose header is written with
    spaces is stored with line feeds in their place. *)
Lemma picture_opened_not_stored :
  let cut := item "50494354" "13" ppm_cut in
  let spaced := item "50494354" "14" ppm_spaced in
  (completes cut (initial ∅) = true
   /\ routed 4300 (frame cut (initial ∅)) "picture_data" ppm_cut
   /\ is_Ok (bind (Base64.b64decode ppm_cut) (Image_open Tiny.PIL)) = true
   /\ files (run_line cut (initial ∅)) = ∅
   /\ song (run_line cut (initial ∅)) !! "picture_file" = Some PyNone
   /\ song (run_line cut (initial ∅)) !! "last_update" = Some (PyInt 0))
  /\ (completes spaced (initial ∅) = true
      /\ routed 4300 (frame spaced (initial ∅)) "picture_data" ppm_spaced
      /\ Base64.b64decode ppm_spaced = Ok pixmap_spaced
      /\ files (run_line spaced (initial ∅)) !! cover_1700000000500
         = Some pixmap_a
      /\ pixmap_a <> pixmap_spaced).
Proof.
  split; (split; [vm_compute; reflexivity|]);
    (split; [eexists _, "50494354"; vm_compute; repeat split; reflexivity|]);
    repeat split; try (vm_compute; reflexivity).
  discriminate.
Qed.

(** A failure retained: the pixmap cut short is opened but not saved. *)
Lemma pixmap_cut_retained :
  song (run_line (item "50494354" "13" ppm_cut) (initial ∅)) = current_song.
Proof.
  refine (proj1 (failure_retains_state Tiny.PIL 4300 fast_clock COVER_ART_DIR
                   (item "50494354" "13" ppm_cut) (initial ∅)
                   "picture_data" ppm_cut
                   (Error_saving_image
                      (Image_Error
                         "image file is truncated (2 bytes not processed)"))
                   _ _ _)).
  - vm_compute. reflexivity.
  - exists 13, "50494354". vm_compute. repeat split; reflexivity.
  - apply (save_fails Tiny.PIL fast_clock COVER_ART_DIR "picture_data" ppm_cut
             (initial ∅) pixmap_cut
             {| Tiny.width := 1; Tiny.height := 1;
                Tiny.raster := 1 :: 2 :: nil |}
             1700000000500
             (Image_Error "image file is truncated (2 bytes not processed)")
             None);
      vm_compute; reflexivity.
Defined.



(** An album frame of length 0 is dropped in silence: the state is as
    before. *)
Lemma album_length_zero_dropped :
  run_line (item "6173616c" "0" "QWxidW0=") (initial ∅) = initial ∅.
Proof.
  change (initial ∅) with (set_buffer EmptyString (initial ∅)) at 2.
  apply (dropped_frame_silent Tiny.PIL 4300 fast_clock COVER_ART_DIR _ _ 0).
  - vm_compute. reflexivity.
  - left. vm_compute. reflexivity.
  - vm_compute. reflexivity.
Qed.

(** C2 (code at the failing input). A completed frame with no code tag and a
    length of 4301 digits is not dropped in silence: with the interpreter's
    default limit of 4300 digits the listener raises [ValueError] out of the
    frame body and prints it.  The dictionary is unchanged. *)
Theorem overlong_length_raises :
  let st' := run_line overlong_bare_line (initial ∅) in
  completes overlong_bare_line (initial ∅) = true
  /\ Re.search Re.code_at (frame overlong_bare_line (initial ∅)) = None
  /\ stdout st' = Metadata_listener_exception ValueError :: nil
  /\ song st' = current_song.
Proof.
  intros st'.
  assert (Hc : completes overlong_bare_line (initial ∅) = true)
    by (vm_compute; reflexivity).
  assert (Hlen : frame_length 4300 (frame overlong_bare_line (initial ∅))
                 = Raise ValueError) by (vm_compute; reflexivity).
  subst st'.
  rewrite (refused_length_keeps_buffer Tiny.PIL 4300 fast_clock COVER_ART_DIR
             _ _ _ Hc Hlen).
  repeat split; try reflexivity; vm_compute; reflexivity.
Qed.

(** C7 (code at the failing input). After a completed frame whose length
    has 4301 digits the buffer still holds the frame; the next frame is
    appended to it, is refused for the same reason, and its title is lost. *)
Theorem overlong_length_keeps_buffer :
  let st1 := run_line overlong_hello_line (initial ∅) in
  let st2 := run_line hello_line st1 in
  Str.endswith overlong_hello_line "</item>" = true
  /\ buffer st1 = overlong_hello_line
  /\ buffer st2 = overlong_hello_line ++ hello_line
  /\ song st2 !! "track_name" = Some PyNone
  /\ stdout st2 = Metadata_listener_exception ValueError
                  :: Metadata_listener_exception ValueError :: nil.
Proof. vm_compute. repeat split; reflexivity. Qed.

(** ** [most_recent_cover] *)

Section CoverFacts.

Import Cover.

Lemma In_insert_desc x l g : In g (insert_desc x l) <-> g = x \/ In g l.
Proof.
  induction l as [|y l IH]; simpl; [intuition congruence|].
  destruct (st_mtime x <? st_mtime y); simpl; [rewrite IH|]; intuition congruence.
Qed.

Lemma In_sort_desc l g : In g (sort_desc l) <-> In g l.
Proof.
  induction l as [|x l IH]; simpl; [tauto|].
  rewrite In_insert_desc, IH. intuition congruence.
Qed.

(** The head of the sorted list is an entry of the list that no entry
    exceeds. *)
Lemma sort_desc_head l f rest :
  sort_desc l = f :: rest ->
  In f l /\ forall g, In g l -> st_mtime g <= st_mtime f.
Proof.
  revert f rest. induction l as [|x l IH]; simpl; intros f rest H; [discriminate|].
  destruct (sort_desc l) as [|y r] eqn:E.
  - simpl in H. injection H as <- <-. split; [now left|].
    intros g [<-|Hg]; [lia|].
    apply In_sort_desc in Hg. rewrite E in Hg. destruct Hg.
  - destruct (IH y r eq_refl) as [Hy Hmax]. simpl in H.
    destruct (Z.ltb_spec (st_mtime x) (st_mtime y)) as [Hlt|Hge];
      injection H as <- <-.
    + split; [now right|]. intros g [<-|Hg]; [lia|now apply Hmax].
    + split; [now left|]. intros g [<-|Hg]; [lia|].
      specialize (Hmax g Hg). lia.
Qed.

(** What [stat_all] returns are the candidates themselves, and what it
    raises is the error of a candidate. *)
Lemma stat_all_ok l : forall keyed,
  stat_all l = inl keyed -> l = map Stat keyed.
Proof.
  induction l as [|[f|n e] l IH]; simpl; intros keyed H.
  - injection H as <-. reflexivity.
  - destruct (stat_all l) as [k|e]; [|discriminate].
    injection H as <-. simpl. now rewrite (IH k eq_refl).
  - discriminate.
Qed.

Lemma stat_all_raises l e :
  stat_all l = inr e -> exists n, In (No_stat n e) l.
Proof.
  induction l as [|[f|n e'] l IH]; simpl; intros H.
  - discriminate.
  - destruct (stat_all l) as [k|e'']; [discriminate|].
    injection H as ->. destruct (IH eq_refl) as [n Hn]. exists n. now right.
  - injection H as ->. exists n. now left.
Qed.

Lemma stat_all_map keyed : stat_all (map Stat keyed) = inl keyed.
Proof. induction keyed as [|f keyed IH]; simpl; [reflexivity|now rewrite IH]. Qed.

Lemma In_map_Stat g keyed : In (Stat g) (map Stat keyed) <-> In g keyed.
Proof.
  rewrite in_map_iff. split.
  - intros (g' & [= ->] & H). exact H.
  - intros H. now exists g.
Qed.

Lemma filter_nil {A} (P : A -> bool) l :
  List.filter P l = nil <-> forall x, In x l -> P x = false.
Proof.
  induction l as [|a l IH]; simpl; [tauto|].
  destruct (P a) eqn:Ha.
  - split; [discriminate|]. intros H. specialize (H a (or_introl eq_refl)).
    congruence.
  - rewrite IH. split.
    + intros H x [<-|Hx]; [exact Ha|now apply H].
    + intros H x Hx. apply H. now right.
Qed.

(** How a path is found. *)
Lemma most_recent_cover_inv p dir path :
  most_recent_cover p dir = inl (Some path) ->
  exists files keyed f rest,
    dir = Listing files
    /\ List.filter candidate files = map Stat keyed
    /\ sort_desc keyed = f :: rest
    /\ path = child p (name f).
Proof.
  unfold most_recent_cover. destruct dir as [|e|files]; [discriminate..|].
  destruct (List.filter candidate files) as [|x c] eqn:Hc; [discriminate|].
  destruct (stat_all (x :: c)) as [keyed|e] eqn:Hk; [|discriminate].
  destruct (sort_desc keyed) as [|f rest] eqn:E; [discriminate|].
  intros [= <-]. exists files, keyed, f, rest.
  rewrite Hc, (stat_all_ok _ _ Hk). now repeat split.
Qed.

(** The path found is that of a candidate that no candidate exceeds, and
    [stat] could read every candidate. *)
Lemma most_recent_cover_found p dir path :
  most_recent_cover p dir = inl (Some path) ->
  exists files f,
    dir = Listing files
    /\ In (Stat f) files
    /\ is_candidate f = true
    /\ path = child p (name f)
    /\ forall x, In x files -> candidate x = true ->
                 exists g, x = Stat g /\ st_mtime g <= st_mtime f.
Proof.
  intros H.
  destruct (most_recent_cover_inv _ _ _ H)
    as (files & keyed & f & rest & -> & Hc & E & ->).
  destruct (sort_desc_head _ _ _ E) as [Hin Hmax].
  assert (Hf : In (Stat f) (List.filter candidate files))
    by (rewrite Hc; now apply In_map_Stat).
  apply filter_In in Hf as [Hf Hcf].
  exists files, f. repeat split; try assumption.
  intros x Hx Hcx.
  assert (Hxc : In x (map Stat keyed))
    by (rewrite <- Hc; apply filter_In; now split).
  apply in_map_iff in Hxc as (g & <- & Hg). exists g. split; [reflexivity|].
  now apply Hmax.
Qed.

(** An error that leaves [most_recent_cover] comes from the listing or from
    [stat] on a candidate. *)
Lemma most_recent_cover_raises p dir e :
  most_recent_cover p dir = inr e ->
  dir = Unreadable e
  \/ exists files n, dir = Listing files
                     /\ In (No_stat n e) files /\ recognized n = true.
Proof.
  unfold most_recent_cover. destruct dir as [|e'|files].
  - discriminate.
  - intros [= ->]. now left.
  - destruct (List.filter candidate files) as [|x c] eqn:Hc; [discriminate|].
    destruct (stat_all (x :: c)) as [keyed|e'] eqn:Hk.
    + destruct (sort_desc keyed); discriminate.
    + intros [= ->]. right. destruct (stat_all_raises _ _ Hk) as [n Hn].
      rewrite <- Hc in Hn. apply filter_In in Hn as [Hn Hrec].
      exists files, n. now repeat split.
Qed.

(** C6 (as amended). When [stat] can read every entry with a recognized
    suffix of a directory that is listed, [most_recent_cover] returns.  It
    returns nothing exactly when the directory does not exist or has no entry
    with a recognized suffix.  When it returns a path, this is the path of an
    entry with a recognized suffix whose modification time no other such
    entry exceeds.  It returns neither when the directory cannot be listed or
    [stat] raises on an entry with a recognized suffix: then that error
    leaves it. *)
Theorem most_recent_cover_newest p dir :
  (forall files,
      dir = Listing files ->
      (forall x, In x files -> candidate x = true -> exists g, x = Stat g) ->
      exists r, most_recent_cover p dir = inl r)
  /\ (most_recent_cover p dir = inl None
      <-> dir = Missing
          \/ exists files, dir = Listing files
                           /\ forall x, In x files -> candidate x = false)
  /\ (forall path, most_recent_cover p dir = inl (Some path) ->
      exists files f,
        dir = Listing files
        /\ In (Stat f) files
        /\ is_candidate f = true
        /\ path = child p (name f)
        /\ forall x, In x files -> candidate x = true ->
                     exists g, x = Stat g /\ st_mtime g <= st_mtime f)
  /\ (forall e, most_recent_cover p dir = inr e ->
      dir = Unreadable e
      \/ exists files n, dir = Listing files
                         /\ In (No_stat n e) files /\ recognized n = true).
Proof.
  split; [|split; [|split]].
  - intros files -> Hread.
    destruct (most_recent_cover p (Listing files)) as [r|e] eqn:H; [eauto|].
    destruct (most_recent_cover_raises _ _ _ H)
      as [Hd|(l & n & [= <-] & Hn & Hrec)]; [discriminate|].
    destruct (Hread _ Hn Hrec) as [g Hg]. discriminate.
  - unfold most_recent_cover. destruct dir as [|e|files].
    + split; [now left|reflexivity].
    + split; [discriminate|]. intros [H|(l & H & _)]; discriminate.
    + destruct (List.filter candidate files) as [|x c] eqn:Hc.
      * split; [|reflexivity]. intros _. right. exists files.
        split; [reflexivity|]. now apply filter_nil.
      * split.
        -- destruct (stat_all (x :: c)) as [keyed|e] eqn:Hk; [|discriminate].
           destruct (sort_desc keyed) as [|f rest] eqn:E; [|discriminate].
           destruct keyed as [|g keyed].
           ++ apply stat_all_ok in Hk. discriminate.
           ++ assert (Hin : In g (sort_desc (g :: keyed)))
                by (apply In_sort_desc; now left).
              rewrite E in Hin. destruct Hin.
        -- intros [H|(l & [= <-] & Hnone)]; [discriminate|].
           apply filter_nil in Hnone. rewrite Hnone in Hc. discriminate.
  - intros path H. exact (most_recent_cover_found p dir path H).
  - intros e H. exact (most_recent_cover_raises p dir e H).
Qed.

(** C6 (as stated) fails.  In a directory whose only entry is a symbolic
    link x.png to nothing, the entry has a recognized suffix, [stat] raises
    for it inside the sort and [most_recent_cover] returns neither a path nor
    [None]; nor does it at a path that is a file and no directory. *)
Lemma dangling_cover_raises :
  most_recent_cover COVER_ART_DIR (Listing dangling_listing)
  = inr FileNotFoundError
  /\ most_recent_cover COVER_ART_DIR (Unreadable NotADirectoryError)
     = inr NotADirectoryError.
Proof. split; vm_compute; reflexivity. Qed.

(** Among the newest entries the first in directory order is returned: the
    sort is stable. *)
Lemma sort_desc_head_first l f rest :
  sort_desc l = f :: rest ->
  exists before behind,
    l = (before ++ f :: behind)%list
    /\ forall g, In g before -> st_mtime g < st_mtime f.
Proof.
  revert f rest. induction l as [|x l IH]; simpl; intros f rest H; [discriminate|].
  destruct (sort_desc l) as [|y r] eqn:E; simpl in H.
  - injection H as <- <-. exists nil, l. split; [reflexivity|]. intros g [].
  - destruct (IH y r eq_refl) as (before & behind & -> & Hlt).
    destruct (Z.ltb_spec (st_mtime x) (st_mtime y)) as [Hxy|Hxy];
      injection H as <- <-.
    + exists (x :: before), behind. split; [reflexivity|].
      intros g [<-|Hg]; [exact Hxy|now apply Hlt].
    + exists nil, (before ++ y :: behind)%list. split; [reflexivity|]. intros g [].
Qed.

End CoverFacts.

(** ** Decoding text never fails, and ASCII comes out as it is *)

Lemma decode_replace_ascii bs :
  Forall (fun b => b < 128) bs -> Utf8.decode_replace bs = bs.
Proof.
  unfold Utf8.decode_replace. induction 1 as [|b bs Hb _ IH]; [reflexivity|].
  simpl. unfold Utf8.classify.
  destruct (Z.ltb_spec b 128) as [_|]; [|lia]. now rewrite IH.
Qed.

(** ** [base64.b64decode] ignores what is not in its alphabet *)

Section Base64Facts.

Import Base64.

Lemma a2b_loop_significant data : forall quad_pos leftchar pads,
  a2b_loop (List.filter significant data) quad_pos leftchar pads
  = a2b_loop data quad_pos leftchar pads.
Proof.
  induction data as [|c data IH]; intros quad_pos leftchar pads; [reflexivity|].
  simpl List.filter. unfold significant at 1.
  destruct (Z.eqb_spec c BASE64_PAD) as [->|Hpad].
  - simpl. now rewrite !IH.
  - destruct (Z.ltb_spec (table_a2b_base64 c) 64) as [Hlt|Hge]; simpl.
    + destruct (Z.eqb_spec c BASE64_PAD) as [|_]; [contradiction|].
      now rewrite !IH.
    + destruct (Z.eqb_spec c BASE64_PAD) as [|_]; [contradiction|].
      destruct (Z.leb_spec 64 (table_a2b_base64 c)) as [_|]; [apply IH|lia].
Qed.

(** The loop raises nothing but the padding and length error. *)
Lemma a2b_loop_error data : forall quad_pos leftchar pads e,
  a2b_loop data quad_pos leftchar pads = Raise e -> e = binascii_Error.
Proof.
  induction data as [|c data IH]; intros quad_pos leftchar pads e; simpl.
  - destruct (quad_pos =? 0); [discriminate|now intros [= <-]].
  - assert (Hemit : forall b q l p,
               emit b (a2b_loop data q l p) = Raise e -> e = binascii_Error).
    { intros b q l p. unfold emit.
      destruct (a2b_loop data q l p) eqn:E; [discriminate|].
      simpl. intros [= <-]. exact (IH _ _ _ _ E). }
    repeat match goal with
           | |- context [if ?b then _ else _] => destruct b
           end; eauto; discriminate.
Qed.

Lemma encode_ascii_error s e : encode_ascii s = Raise e -> e = ValueError.
Proof.
  induction s as [|c s IH]; simpl; [discriminate|].
  destruct (Str.code c <? 128); [|now intros [= <-]].
  destruct (encode_ascii s); simpl; [discriminate|]. intros [= <-]. now apply IH.
Qed.

(** An ASCII payload decodes as its significant characters do. *)
Lemma b64decode_significant s raw :
  encode_ascii s = Ok raw ->
  b64decode s = a2b_base64 (List.filter significant raw).
Proof.
  intros H. unfold b64decode, a2b_base64. rewrite H. simpl.
  symmetry. apply a2b_loop_significant.
Qed.

(** Without pad characters, the loop fails exactly when the number of digits
    is not a multiple of four. *)
Lemma a2b_loop_length data : forall quad_pos leftchar pads,
  0 <= quad_pos < 4 ->
  ~ In BASE64_PAD data ->
  is_Ok (a2b_loop data quad_pos leftchar pads)
  = ((quad_pos + Z.of_nat (List.length (List.filter isdigit64 data))) mod 4 =? 0).
Proof.
  assert (Hemit : forall b r, is_Ok (emit b r) = is_Ok r)
    by (intros b [|]; reflexivity).
  induction data as [|c data IH]; intros quad_pos leftchar pads Hq Hpad.
  - simpl. rewrite Z.add_0_r, Z.mod_small by lia.
    now destruct (quad_pos =? 0).
  - assert (Hc : c <> BASE64_PAD) by (intros ->; apply Hpad; now left).
    assert (Hdata : ~ In BASE64_PAD data) by (intros H; apply Hpad; now right).
    cbn [a2b_loop List.filter]. unfold isdigit64 at 1.
    destruct (Z.eqb_spec c BASE64_PAD) as [|_]; [contradiction|].
    cbn [negb andb].
    destruct (Z.ltb_spec (table_a2b_base64 c) 64) as [Hlt|Hge].
    + destruct (Z.leb_spec 64 (table_a2b_base64 c)) as [|_]; [lia|].
      cbn [List.length]. rewrite Nat2Z.inj_succ.
      destruct (Z.eqb_spec quad_pos 0) as [->|H0];
        [rewrite IH by (lia || assumption); f_equal; f_equal; lia|].
      destruct (Z.eqb_spec quad_pos 1) as [->|H1];
        [rewrite Hemit, IH by (lia || assumption); f_equal; f_equal; lia|].
      destruct (Z.eqb_spec quad_pos 2) as [->|H2];
        [rewrite Hemit, IH by (lia || assumption); f_equal; f_equal; lia|].
      assert (quad_pos = 3) as -> by lia.
      rewrite Hemit, IH by (lia || assumption).
      replace (3 + Z.succ (Z.of_nat (List.length (List.filter isdigit64 data))))
        with (0 + Z.of_nat (List.length (List.filter isdigit64 data)) + 1 * 4)
        by lia.
      now rewrite Z.mod_add by lia.
    + destruct (Z.leb_spec 64 (table_a2b_base64 c)) as [_|]; [|lia].
      now apply IH.
Qed.

End Base64Facts.

Section PayloadFacts.

Variable PIL : imaging.
Variable max_str_digits : Z.
Variable clock : nat -> float.
Variable cover_dir : string.

Local Abbreviation read_line := (read_line PIL max_str_digits clock cover_dir).
Local Abbreviation routed := (routed max_str_digits).

(** C10 (as amended). In an ASCII payload the characters outside the base64
    alphabet (the pad apart) are ignored: the payload decodes as its
    significant characters do.  If that decoding succeeds the text field is
    set to its UTF-8 decoding and nothing is printed; it fails only with the
    padding and length error, and then, as for a payload with a character
    above U+007F ([ValueError]), the dictionary keeps its values and the
    failure is printed. *)
Theorem non_alphabet_ascii_ignored line st field_name data_b64 :
  completes line st = true ->
  routed (frame line st) field_name data_b64 ->
  field_name <> "picture_data" ->
  let st' := read_line line st in
  match Base64.encode_ascii data_b64 with
  | Raise _ =>
      song st' = song st
      /\ stdout st' = (stdout st ++ Exception_decoding_item ValueError :: nil)%list
  | Ok raw =>
      Base64.b64decode data_b64
      = Base64.a2b_base64 (List.filter Base64.significant raw)
      /\ match Base64.a2b_base64 (List.filter Base64.significant raw) with
         | Ok bytes =>
             song st' !! field_name = Some (PyStr (Utf8.decode_replace bytes))
             /\ stdout st' = stdout st
         | Raise e =>
             e = binascii_Error
             /\ song st' = song st
             /\ stdout st'
                = (stdout st ++ Exception_decoding_item binascii_Error :: nil)%list
         end
  end.
Proof.
  intros Hc Hr Hf st'. subst st'.
  destruct (Base64.encode_ascii data_b64) as [raw|e] eqn:Hraw.
  - pose proof (b64decode_significant _ _ Hraw) as Hb. split; [exact Hb|].
    destruct (Base64.a2b_base64 (List.filter Base64.significant raw))
      as [bytes|e] eqn:Hdec.
    + pose proof Hr as (len & code & _ & _ & _ & _ & Htab).
      rewrite (read_line_routed _ _ _ _ _ _ _ _ Hc Hr),
        (decode_item_text _ _ _ _ _ _ _ Hb Hf).
      simpl. split; [|reflexivity].
      rewrite lookup_insert_ne by (intros E; symmetry in E; revert E;
                                    exact (text_field_not_stamp _ _ Htab)).
      apply lookup_insert_eq.
    + assert (e = binascii_Error) as ->
          by (exact (a2b_loop_error _ _ _ _ _ Hdec)).
      split; [reflexivity|].
      destruct (read_line_failure PIL max_str_digits clock cover_dir
                  line st field_name data_b64
                  (Exception_decoding_item binascii_Error) Hc Hr
                  (base64_fails _ _ _ _ _ _ _ Hb)) as (Hs & Ho & _).
      now split.
  - assert (e = ValueError) as -> by (exact (encode_ascii_error _ _ Hraw)).
    assert (Hb : Base64.b64decode data_b64 = Raise ValueError)
      by (unfold Base64.b64decode; now rewrite Hraw).
    destruct (read_line_failure PIL max_str_digits clock cover_dir
                line st field_name data_b64
                (Exception_decoding_item ValueError) Hc Hr
                (base64_fails _ _ _ _ _ _ _ Hb)) as (Hs & Ho & _).
    now split.
Qed.

End PayloadFacts.

(** "Hello" with a space and an asterisk in its payload is still "Hello". *)
Lemma hello_spaced_track_name :
  song (run_line hello_spaced_line (initial ∅)) !! "track_name"
  = Some (PyStr (Str.codepoints "Hello")).
Proof.
  refine (let H := non_alphabet_ascii_ignored Tiny.PIL 4300 fast_clock
                     COVER_ART_DIR hello_spaced_line (initial ∅)
                     "track_name" "SGVs bG*8=" _ _ _ in _).
  - vm_compute in (type of H). exact (proj1 (proj2 H)).
  Unshelve.
  + vm_compute. reflexivity.
  + exists 5, "6d696e6d". vm_compute. repeat split; reflexivity.
  + discriminate.
Defined.

(** C10 (as stated) fails.  With a character above U+007F in the payload
    the decoder raises although the remaining characters are the base64 of
    "Hello": the title is not set and the failure is printed. *)
Lemma non_ascii_payload_fails :
  completes hello_accent_line (initial ∅) = true
  /\ routed 4300 (frame hello_accent_line (initial ∅)) "track_name" hello_accent
  /\ Base64.b64decode hello_accent = Raise ValueError
  /\ Base64.b64decode "SGVsbG8=" = Ok (Str.codepoints "Hello")
  /\ song (run_line hello_accent_line (initial ∅)) !! "track_name" = Some PyNone
  /\ stdout (run_line hello_accent_line (initial ∅))
     = Exception_decoding_item ValueError :: nil.
Proof.
  split; [vm_compute; reflexivity|].
  split; [exists 5, "6d696e6d"; vm_compute; repeat split; reflexivity|].
  repeat split; vm_compute; reflexivity.
Qed.

(** ** The lock *)

Section LockedFacts.

Import Locked.

Lemma after_snoc us u : after (us ++ u :: nil) = apply (after us) u.
Proof. unfold after. now rewrite fold_left_app. Qed.

Lemma firstn_snoc_nth {A} (l : list A) n x :
  nth_error l n = Some x ->
  firstn (S n) l = (firstn n l ++ x :: nil)%list.
Proof.
  revert n. induction l as [|a l IH]; intros [|n] H; try discriminate.
  - now injection H as ->.
  - simpl in H. simpl. f_equal. now apply IH.
Qed.

Lemma invariant_start : invariant start.
Proof.
  split; simpl; try reflexivity; try exact I. intros snap [].
Qed.

Lemma invariant_step c c' : invariant c -> step c c' -> invariant c'.
Proof.
  intros [Hlock Hexcl Hdict Hreads Hseen] Hstep.
  destruct Hstep; simpl in *.
  - (* the listener takes the lock *)
    destruct rd; [|discriminate].
    split; simpl; auto.
  - (* the listener assigns its key *)
    destruct rd; [|discriminate].
    split; simpl; auto. now rewrite Hdict.
  - (* the listener assigns last_update *)
    destruct rd; [|discriminate].
    split; simpl; auto. now rewrite Hdict.
  - (* the listener releases the lock *)
    destruct rd; [|discriminate].
    split; simpl; auto.
    + now rewrite after_snoc.
    + intros snap Hin. destruct (Hseen snap Hin) as (us & rest & -> & ->).
      exists us, (rest ++ u :: nil)%list. split; [|reflexivity].
      now rewrite <- app_assoc.
  - (* refresh_ui takes the lock *)
    destruct wr; try discriminate.
    split; simpl; auto.
  - (* refresh_ui reads a key *)
    split; simpl; auto.
    replace (List.length (got ++ d !! k :: nil)) with (S (List.length got))
      by (rewrite length_app; simpl; lia).
    rewrite (firstn_snoc_nth KEYS (List.length got) k) by assumption.
    rewrite map_app. simpl. now rewrite <- Hreads.
  - (* refresh_ui releases the lock *)
    destruct wr; try discriminate.
    split; simpl; auto.
    intros snap Hin. apply in_app_or in Hin as [Hin|[<-|[]]]; [now apply Hseen|].
    exists done, nil. split; [now rewrite app_nil_r|].
    rewrite Hreads, H. simpl in Hdict. now rewrite Hdict.
Qed.

Lemma reachable_invariant c : reachable c -> invariant c.
Proof.
  induction 1 as [|c c' _ IH Hstep];
    [exact invariant_start | exact (invariant_step c c' IH Hstep)].
Qed.

(** The two threads are never inside their blocks together. *)
Lemma mutual_exclusion c :
  reachable c -> writer_inside (w c) && reader_inside (r c) = false.
Proof. intros H. exact (exclusion c (reachable_invariant c H)). Qed.

(** C9. Every snapshot that [refresh_ui] takes under the lock, however the
    steps of the two threads interleave, is the dictionary as it stood after
    a whole number of the listener's updates, each made of a key and the
    [last_update] stamped with it: no snapshot shows part of an update. *)
Theorem snapshot_of_whole_updates c snap :
  reachable c ->
  In snap (seen c) ->
  exists us rest,
    completed c = (us ++ rest)%list /\ snap = view (after us).
Proof.
  intros Hreach Hin. exact (seen_whole c (reachable_invariant c Hreach) snap Hin).
Qed.

(** The configuration [hello_seen] is reached: the listener makes its
    update, then [refresh_ui] takes its snapshot. *)
Lemma hello_seen_reachable : reachable hello_seen.
Proof.
  pose proof reachable_start as H. unfold start in H.
  eapply reachable_step in H; [|exact (writer_acquire _ _ _ _ hello_update)].
  eapply reachable_step in H; [|apply writer_assign].
  eapply reachable_step in H; [|apply writer_stamp].
  eapply reachable_step in H; [|apply writer_release].
  eapply reachable_step in H; [|apply reader_acquire].
  do 5 (eapply reachable_step in H; [|eapply reader_get; reflexivity]).
  eapply reachable_step in H; [|apply reader_release; reflexivity].
  exact H.
Qed.

Lemma hello_snapshot_whole :
  exists us rest,
    hello_update :: nil = (us ++ rest)%list
    /\ view (apply current_song hello_update) = view (after us).
Proof.
  apply (snapshot_of_whole_updates hello_seen
           (view (apply current_song hello_update))).
  - exact hello_seen_reachable.
  - simpl. left. reflexivity.
Defined.

End LockedFacts.

(** The updates of [decode_item] are updates in the sense of [Locked]. *)
Lemma text_update_is_locked PIL clock cover_dir field_name data_b64 st bytes :
  Base64.b64decode data_b64 = Ok bytes ->
  field_name <> "picture_data" ->
  song (decode_item PIL clock cover_dir field_name data_b64 st)
  = Locked.apply (song st)
      {| Locked.key := field_name;
         Locked.value := PyStr (Utf8.decode_replace bytes);
         Locked.stamp := clock (clock_reads st) |}.
Proof.
  intros Hb Hf. now rewrite (decode_item_text PIL clock cover_dir _ _ _ _ Hb Hf).
Qed.

(** * Further properties of the listener *)

Section ListenerMore.

Variable PIL : imaging.
Variable max_str_digits : Z.
Variable clock : nat -> float.
Variable cover_dir : string.

Local Abbreviation process_frame := (process_frame PIL max_str_digits clock cover_dir).
Local Abbreviation read_line := (read_line PIL max_str_digits clock cover_dir).
Local Abbreviation decode_item := (decode_item PIL clock cover_dir).
Local Abbreviation save_picture := (save_picture PIL clock cover_dir).
Local Abbreviation metadata_listener :=
  (metadata_listener PIL max_str_digits clock cover_dir).
Local Abbreviation listen := (listen PIL max_str_digits clock cover_dir).
Local Abbreviation routed := (routed max_str_digits).
Local Abbreviation dropped := (dropped max_str_digits).
Local Abbreviation frame_length := (frame_length max_str_digits).

(** [decode_item] neither reads nor writes the buffer, and what it prints is
    added to what was printed. *)
Lemma decode_item_frame field_name data_b64 b m f o n :
  decode_item field_name data_b64
    {| buffer := b; song := m; files := f; stdout := o; clock_reads := n |}
  = let r := decode_item field_name data_b64
               {| buffer := EmptyString; song := m; files := f; stdout := nil;
                  clock_reads := n |} in
    {| buffer := b; song := song r; files := files r;
       stdout := (o ++ stdout r)%list; clock_reads := clock_reads r |}.
Proof.
  unfold decode_item, save_picture, time_time, print, set_song, set_files.
  cbn [buffer song files stdout clock_reads].
  destruct (Base64.b64decode data_b64) as [bytes|e]; [|reflexivity].
  destruct (String.eqb field_name "picture_data").
  - destruct (Image_open PIL bytes) as [img|e]; [|reflexivity].
    cbn [buffer song files stdout clock_reads].
    destruct (Int.of_float _) as [ts|e]; [|reflexivity].
    cbn [buffer song files stdout clock_reads].
    destruct (Image_save PIL img _ _) as [content|e [c|]];
      cbn [buffer song files stdout clock_reads]; now rewrite ?app_nil_r.
  - cbn [buffer song files stdout clock_reads]. now rewrite app_nil_r.
Qed.

Lemma set_buffer_same st : buffer st = EmptyString -> set_buffer EmptyString st = st.
Proof. destruct st. simpl. now intros ->. Qed.

(** After a completed frame the buffer is empty exactly when [int] accepted
    the length of the frame. *)
Theorem buffer_empty_iff_length_accepted line st :
  completes line st = true ->
  buffer (read_line line st) = EmptyString
  <-> exists len, frame_length (frame line st) = Ok len.
Proof.
  intros Hc. split.
  - destruct (frame_length (frame line st)) as [len|e] eqn:Hlen; [eauto|].
    rewrite (refused_length_keeps_buffer _ _ _ _ _ _ _ Hc Hlen). simpl.
    intros Hb. unfold completes in Hc. rewrite Hb in Hc.
    now rewrite andb_false_r in Hc.
  - intros [len Hlen].
    exact (completed_frame_resets_buffer _ _ _ _ _ _ _ Hc Hlen).
Qed.

(** Any number of frames that the listener drops, read one after the other
    from an empty buffer, leave every part of the state as it was. *)
Theorem unnoticed_lines_change_nothing lines : forall st,
  buffer st = EmptyString ->
  Forall (unnoticed max_str_digits) lines ->
  metadata_listener lines st = st.
Proof.
  induction lines as [|line lines IH]; intros st Hb Hall; [reflexivity|].
  inversion Hall as [|? ? (Hne & Hend & Hdrop & len & Hlen) Hrest]; subst.
  assert (Hframe : frame line st = Str.strip line)
    by (unfold frame; now rewrite Hb).
  assert (Hc : completes line st = true).
  { unfold completes. rewrite Hframe, Hend.
    destruct (String.eqb_spec line EmptyString); [contradiction|reflexivity]. }
  unfold metadata_listener. cbn [fold_left].
  rewrite (dropped_frame_silent PIL max_str_digits clock cover_dir line st len Hc);
    rewrite ?Hframe; try assumption.
  rewrite (set_buffer_same st Hb). now apply IH.
Qed.

(** Of two frames for the same text field read one after the other only the
    second leaves a trace: the dictionary is what the second alone would have
    made of it, with the clock value of the second update. *)
Theorem last_write_wins line1 line2 st field_name d1 d2 bytes1 bytes2 :
  completes line1 st = true ->
  routed (frame line1 st) field_name d1 ->
  Base64.b64decode d1 = Ok bytes1 ->
  line2 <> EmptyString ->
  Str.endswith (Str.strip line2) "</item>" = true ->
  routed (Str.strip line2) field_name d2 ->
  Base64.b64decode d2 = Ok bytes2 ->
  field_name <> "picture_data" ->
  song (read_line line2 (read_line line1 st))
  = <["last_update" := PyFloat (clock (S (clock_reads st)))]>
      (<[field_name := PyStr (Utf8.decode_replace bytes2)]> (song st)).
Proof.
  intros Hc1 Hr1 Hb1 Hne2 Hend2 Hr2 Hb2 Hf.
  pose proof Hr1 as (len & code & _ & _ & _ & _ & Htab).
  pose proof (text_field_not_stamp _ _ Htab) as Hstamp.
  set (st1 := read_line line1 st).
  assert (Hst1 : st1
                 = set_buffer EmptyString
                     (decode_item field_name d1 (set_buffer (frame line1 st) st)))
    by exact (read_line_routed _ _ _ _ _ _ _ _ Hc1 Hr1).
  rewrite (decode_item_text _ _ _ _ _ _ _ Hb1 Hf) in Hst1.
  assert (Hframe : frame line2 st1 = Str.strip line2) by now rewrite Hst1.
  assert (Hc2 : completes line2 st1 = true).
  { unfold completes. rewrite Hframe, Hend2.
    destruct (String.eqb_spec line2 EmptyString); [contradiction|reflexivity]. }
  rewrite <- Hframe in Hr2.
  rewrite (read_line_routed _ _ _ _ _ _ _ _ Hc2 Hr2),
    (decode_item_text _ _ _ _ _ _ _ Hb2 Hf).
  rewrite Hst1. simpl.
  apply map_eq. intros k. rewrite !lookup_insert.
  repeat case_decide; congruence.
Qed.

(** What a routed frame does depends on the field and the payload only: two
    lines that complete frames routed to the same field with the same payload
    have the same effect, whatever else the frames hold (the digits of the
    length, other tags). *)
Theorem same_routing_same_effect line line' st field_name data_b64 :
  completes line st = true ->
  completes line' st = true ->
  routed (frame line st) field_name data_b64 ->
  routed (frame line' st) field_name data_b64 ->
  read_line line st = read_line line' st.
Proof.
  intros Hc Hc' Hr Hr'.
  rewrite (read_line_routed _ _ _ _ _ _ _ _ Hc Hr),
    (read_line_routed _ _ _ _ _ _ _ _ Hc' Hr').
  destruct st as [b m f o n]. unfold set_buffer. simpl.
  rewrite (decode_item_frame field_name data_b64 (frame line _) m f o n),
    (decode_item_frame field_name data_b64 (frame line' _) m f o n).
  reflexivity.
Qed.

(** Only a picture frame writes a file: a line that does not complete a
    frame routed to the picture leaves the files as they are. *)
Theorem only_pictures_write_files line st :
  (forall data_b64,
      ~ (completes line st = true
         /\ routed (frame line st) "picture_data" data_b64)) ->
  files (read_line line st) = files st.
Proof.
  intros Hnot. destruct (completes line st) eqn:Hc.
  - rewrite (read_line_completes _ _ _ _ _ _ Hc).
    destruct (process_frame_cases PIL max_str_digits clock cover_dir
                (set_buffer (frame line st) st))
      as [(e & _ & ->)|[(_ & ->)|(field_name & data_b64 & Hr & ->)]];
      [reflexivity|reflexivity|].
    simpl. unfold decode_item.
    destruct (Base64.b64decode data_b64) as [bytes|e]; [|reflexivity].
    destruct (String.eqb_spec field_name "picture_data") as [->|_];
      [|reflexivity].
    exfalso. apply (Hnot data_b64). now split.
  - destruct (read_line_incomplete PIL max_str_digits clock cover_dir line st Hc)
      as [-> | ->]; reflexivity.
Qed.

Lemma append_assoc (a b c : string) : (a ++ b) ++ c = a ++ (b ++ c).
Proof.
  induction a as [|x a IH]; [reflexivity|].
  change (String x ((a ++ b) ++ c) = String x (a ++ (b ++ c))). now rewrite IH.
Qed.

(** A frame that arrives in two lines is handled as the same frame in one
    line: only what is left of the lines after trimming counts. *)
Theorem split_frame_as_whole l1 l2 l st :
  l1 <> EmptyString ->
  l2 <> EmptyString ->
  l <> EmptyString ->
  Str.strip l = Str.strip l1 ++ Str.strip l2 ->
  Str.endswith (buffer st ++ Str.strip l1) "</item>" = false ->
  read_line l2 (read_line l1 st) = read_line l st.
Proof.
  intros H1 H2 H Hstrip Hend. unfold read_line.
  destruct (String.eqb_spec l1 EmptyString); [contradiction|].
  destruct (String.eqb_spec l2 EmptyString); [contradiction|].
  destruct (String.eqb_spec l EmptyString); [contradiction|].
  cbn [buffer set_buffer]. rewrite Hend. cbn [buffer set_buffer].
  rewrite Hstrip, append_assoc.
  reflexivity.
Qed.

End ListenerMore.

(** ** The shape of the dictionary *)

Lemma shape_current_song : song_shape current_song.
Proof.
  split; try (left; reflexivity); tauto.
Qed.

Lemma none_or_text_insert (m : gmap string pyval) (k k' : string) text :
  none_or_text (m !! k') -> none_or_text (<[k := PyStr text]> m !! k').
Proof.
  intros H. unfold none_or_text. rewrite lookup_insert.
  case_decide; [right; eauto|exact H].
Qed.

Lemma shape_insert_text (m : gmap string pyval) (k : string) text :
  k = "track_name" \/ k = "comment" \/ k = "album" \/ k = "picture_file" ->
  song_shape m -> song_shape (<[k := PyStr text]> m).
Proof.
  intros Hk [Ht Hc Ha Hp Hs Hkeys].
  assert (Hin : is_Some (current_song !! k))
    by (destruct Hk as [->|[->|[->| ->]]]; eexists; reflexivity).
  assert (Hne : k <> "last_update")
    by (destruct Hk as [->|[->|[->| ->]]]; discriminate).
  split.
  - now apply none_or_text_insert.
  - now apply none_or_text_insert.
  - now apply none_or_text_insert.
  - now apply none_or_text_insert.
  - now rewrite lookup_insert_ne.
  - intros k'. rewrite lookup_insert. case_decide; [subst k'|apply Hkeys].
    split; intros _; [exact Hin|eauto].
Qed.

Lemma shape_insert_stamp (m : gmap string pyval) x :
  song_shape m -> song_shape (<["last_update" := PyFloat x]> m).
Proof.
  intros [Ht Hc Ha Hp Hs Hkeys].
  split.
  - now rewrite lookup_insert_ne.
  - now rewrite lookup_insert_ne.
  - now rewrite lookup_insert_ne.
  - now rewrite lookup_insert_ne.
  - right. exists x. apply lookup_insert_eq.
  - intros k'. rewrite lookup_insert. case_decide; [subst k'|apply Hkeys].
    split; intros _; [eexists; reflexivity|eauto].
Qed.

Section ShapeFacts.

Variable PIL : imaging.
Variable max_str_digits : Z.
Variable clock : nat -> float.
Variable cover_dir : string.

Lemma shape_decode_item field_name data_b64 st code :
  ESSENTIAL_FIELDS !! code = Some field_name ->
  song_shape (song st) ->
  song_shape (song (decode_item PIL clock cover_dir field_name data_b64 st)).
Proof.
  intros Htab Hshape.
  destruct (decode_item_cases PIL clock cover_dir field_name data_b64 st)
    as [(t & Hu)|(m & Hm)].
  - destruct Hu as [bytes Hf Hb|bytes img ts content -> Hb Ho Ht Hs].
    + rewrite (decode_item_text _ _ _ _ _ _ _ Hb Hf). simpl.
      apply shape_insert_stamp, shape_insert_text; [|assumption].
      destruct (ESSENTIAL_FIELDS_values _ _ Htab) as [->|[->|[->| ->]]];
        tauto.
    + rewrite (decode_item_picture _ _ _ _ _ _ Hb),
        (save_picture_saved _ _ _ _ _ _ _ _ Ho Ht Hs). simpl.
      apply shape_insert_stamp, shape_insert_text; [tauto|assumption].
  - now rewrite (proj1 (decode_item_failure _ _ _ _ _ _ _ Hm)).
Qed.

Lemma shape_read_line line st :
  song_shape (song st) ->
  song_shape (song (read_line PIL max_str_digits clock cover_dir line st)).
Proof.
  intros Hshape. destruct (completes line st) eqn:Hc.
  - rewrite (read_line_completes _ _ _ _ _ _ Hc).
    destruct (process_frame_cases PIL max_str_digits clock cover_dir
                (set_buffer (frame line st) st))
      as [(e & _ & ->)|[(_ & ->)|(field_name & data_b64 & Hr & ->)]];
      [assumption|assumption|].
    destruct Hr as (len & code & _ & _ & _ & _ & Htab). simpl.
    now apply (shape_decode_item _ _ _ code).
  - destruct (read_line_incomplete PIL max_str_digits clock cover_dir line st Hc)
      as [-> | ->]; assumption.
Qed.

Lemma shape_listen evs : forall st,
  song_shape (song st) ->
  song_shape (song (listen PIL max_str_digits clock cover_dir evs st)).
Proof.
  induction evs as [|[line| |e] evs IH]; intros st H; simpl;
    [assumption|apply IH; now apply shape_read_line|now apply IH|now apply IH].
Qed.

(** Whatever the pipe delivers, [current_song] keeps its five keys and the
    kind of value under each: [None] or a string for the three text fields
    and the picture path, the initial 0 or a float for [last_update]. *)
Theorem listener_keeps_shape evs fs :
  song_shape (song (listen PIL max_str_digits clock cover_dir evs (initial fs))).
Proof. apply shape_listen. exact shape_current_song. Qed.

End ShapeFacts.

(** ** [refresh_ui] *)

Section RefreshFacts.

Import UI.

Lemma show_art_vars E p ui :
  track_var (widgets_of (show_art E p ui)) = track_var ui
  /\ artist_var (widgets_of (show_art E p ui)) = artist_var ui
  /\ album_var (widgets_of (show_art E p ui)) = album_var ui.
Proof.
  unfold show_art. destruct (truthy p); [|now repeat split].
  destruct (os_path_exists E p) as [[|]|e]; [|now repeat split..].
  destruct (renders E p); now repeat split.
Qed.

(** A string is shown only if it exists and can be rendered. *)
Lemma show_art_text E text ui :
  exists ui',
    show_art E (PyStr text) ui = Rescheduled ui'
    /\ (art_label ui' = No_art
        \/ art_label ui' = Picture (PyStr text)
           /\ exists_path E text = true /\ renders E (PyStr text) = Rendered).
Proof.
  unfold show_art. destruct (truthy (PyStr text)); [|eexists; split; [reflexivity|now left]].
  simpl. destruct (exists_path E text) eqn:He; [|eexists; split; [reflexivity|now left]].
  destruct (renders E (PyStr text)) eqn:Hr;
    eexists; (split; [reflexivity|]); [right|left]; now repeat split.
Qed.

Lemma show_art_none E ui :
  exists ui', show_art E PyNone ui = Rescheduled ui' /\ art_label ui' = No_art.
Proof. eexists. split; reflexivity. Qed.

(** What [most_recent_cover()] hands to [refresh_ui]. *)
Lemma most_recent_cases E :
  (exists v, most_recent E = inl v /\ (v = PyNone \/ exists t, v = PyStr t))
  \/ (exists e,
        Cover.most_recent_cover COVER_ART_DIR (cover_art_dir E) = inr e
        /\ most_recent E = inr (OSError e)).
Proof.
  unfold most_recent.
  destruct (Cover.most_recent_cover COVER_ART_DIR (cover_art_dir E))
    as [[path|]|e]; [left|left|right]; eauto 6.
Qed.

(** On a dictionary of the listener's shape no value makes the subtraction
    or [os.path.exists] raise: [refresh_ui] reaches its end unless an error
    of the file system leaves [most_recent_cover()], and then it has changed
    nothing. *)
Lemma refresh_ui_shape E m ui :
  song_shape m ->
  (exists ui', refresh_ui E m ui = Rescheduled ui')
  \/ (exists e,
        Cover.most_recent_cover COVER_ART_DIR (cover_art_dir E) = inr e
        /\ refresh_ui E m ui = Crashed (OSError e) ui).
Proof.
  intros [_ _ _ Hp Hs _]. unfold refresh_ui.
  assert (Hel : exists waited,
             elapsed (now E)
               match m !! "last_update" with Some v => v | None => PyInt 0 end
             = inl waited).
  { destruct Hs as [-> | [x ->]]; simpl; eauto. }
  destruct Hel as [waited ->].
  destruct (5 <? waited)%float.
  - left. change (truthy LOGO) with true. cbv iota.
    destruct (show_art_text E (Str.codepoints " /home/pi/airplay_player/airplaylogo.png")
                {| track_var := CONNECT_TRACK; artist_var := CONNECT_ARTIST;
                   album_var := CONNECT_ALBUM; art_label := art_label ui;
                   current_image := current_image ui |}) as (ui' & H & _).
    exists ui'. exact H.
  - assert (Hg : get m "picture_file" = PyNone
                 \/ exists t, get m "picture_file" = PyStr t)
      by (unfold get; destruct Hp as [-> | [t ->]]; eauto).
    clear Hp. rename Hg into Hp.
    assert (Hpic : forall v ui0, v = PyNone \/ (exists t, v = PyStr t) ->
               exists ui', show_art E v ui0 = Rescheduled ui').
    { intros v ui0 [-> | [t ->]].
      - destruct (show_art_none E ui0) as (ui' & H & _). eauto.
      - destruct (show_art_text E t ui0) as (ui' & H & _). eauto. }
    assert (Hrecent :
              forall ui0,
                (exists ui',
                    match most_recent E with
                    | inr e => Crashed e ui
                    | inl picture_file => show_art E picture_file ui0
                    end = Rescheduled ui')
                \/ (exists e,
                      Cover.most_recent_cover COVER_ART_DIR (cover_art_dir E)
                      = inr e
                      /\ match most_recent E with
                         | inr e => Crashed e ui
                         | inl picture_file => show_art E picture_file ui0
                         end = Crashed (OSError e) ui)).
    { intros ui0.
      destruct (most_recent_cases E) as [(v & -> & Hv)|(e & He & ->)].
      - left. now apply Hpic.
      - right. eauto. }
    destruct Hp as [-> | [t ->]].
    + change (truthy PyNone) with false. cbv iota. apply Hrecent.
    + destruct (truthy (PyStr t)); [|apply Hrecent].
      left. apply Hpic. eauto.
Qed.

(** Whatever the pipe has delivered, the dictionary the listener writes
    never makes [refresh_ui] raise at the subtraction or at
    [os.path.exists].  It ends by setting its timer again, unless an error
    of the file system leaves [most_recent_cover()]: that error leaves
    [refresh_ui] too, before any widget is touched and without the timer
    being set. *)
Theorem refresh_after_listener_outcome PIL max_str_digits clock cover_dir
    evs fs E ui :
  (exists ui',
      refresh_ui E
        (song (listen PIL max_str_digits clock cover_dir evs (initial fs))) ui
      = Rescheduled ui')
  \/ (exists e,
        Cover.most_recent_cover COVER_ART_DIR (cover_art_dir E) = inr e
        /\ refresh_ui E
             (song (listen PIL max_str_digits clock cover_dir evs (initial fs)))
             ui
           = Crashed (OSError e) ui).
Proof.
  apply refresh_ui_shape, shape_listen. exact shape_current_song.
Qed.

(** More than five seconds after the last update nothing of the dictionary
    and nothing of the cover directory is shown: the three texts are the
    fixed ones, and the art is the logo path (which starts with a space) if
    that path exists and renders, "No art" otherwise. *)
Theorem stale_shows_connect E m ui waited :
  elapsed (now E)
    match m !! "last_update" with Some v => v | None => PyInt 0 end
  = inl waited ->
  (5 <? waited)%float = true ->
  exists ui',
    refresh_ui E m ui = Rescheduled ui'
    /\ track_var ui' = CONNECT_TRACK
    /\ artist_var ui' = CONNECT_ARTIST
    /\ album_var ui' = CONNECT_ALBUM
    /\ (art_label ui' = No_art
        \/ art_label ui' = Picture LOGO
           /\ os_path_exists E LOGO = inl true /\ renders E LOGO = Rendered).
Proof.
  intros Hel Hstale. unfold refresh_ui. rewrite Hel, Hstale.
  change (truthy LOGO) with true. cbv iota.
  set (ui0 := {| track_var := CONNECT_TRACK; artist_var := CONNECT_ARTIST;
                 album_var := CONNECT_ALBUM; art_label := art_label ui;
                 current_image := current_image ui |}).
  destruct (show_art_text E (Str.codepoints " /home/pi/airplay_player/airplaylogo.png") ui0)
    as (ui' & H & Hart).
  pose proof (show_art_vars E LOGO ui0) as (Ht & Har & Hal).
  change (show_art E LOGO ui0 = Rescheduled ui') in H. rewrite H in Ht, Har, Hal.
  exists ui'. split; [exact H|]. repeat split; try assumption.
  destruct Hart as [Hn|(Hp & He & Hr)]; [now left|right].
  repeat split; try assumption.
  change (inl (exists_path E (Str.codepoints " /home/pi/airplay_player/airplaylogo.png"))
          = (inl true : bool + crash)).
  now rewrite He.
Qed.

End RefreshFacts.

(** ** The listener and [refresh_ui] together *)

Section ShownFacts.

Import UI.

Variable PIL : imaging.
Variable max_str_digits : Z.
Variable clock : nat -> float.
Variable cover_dir : string.

(** Within five seconds of the stamp, and when a picture path is at hand or
    [most_recent_cover()] returns, the three variables get the texts of the
    dictionary. *)
Lemma refresh_ui_fresh_vars E (m : gmap string pyval) ui x v :
  m !! "last_update" = Some (PyFloat x) ->
  (5 <? now E - x)%float = false ->
  (if truthy (get m "picture_file") then inl (get m "picture_file")
   else most_recent E) = inl v ->
  track_var (widgets_of (refresh_ui E m ui)) = or_dash (get m "track_name")
  /\ artist_var (widgets_of (refresh_ui E m ui)) = or_dash (get m "comment")
  /\ album_var (widgets_of (refresh_ui E m ui)) = or_dash (get m "album").
Proof.
  intros Hstamp Hfresh Hv. unfold refresh_ui. rewrite Hstamp. cbn [elapsed].
  rewrite Hfresh. cbv iota zeta. rewrite Hv.
  match goal with
  | |- context [show_art E ?p ?u] =>
      destruct (show_art_vars E p u) as (Ht & Har & Hal)
  end.
  now rewrite Ht, Har, Hal.
Qed.

(** A text field that the listener has just set is what [refresh_ui] shows
    under its label for the next five seconds, an empty text being shown as
    the dash; provided the dictionary holds a picture path or
    [most_recent_cover()] returns (when it raises, line 207 is left before
    the texts are set). *)
Theorem fresh_text_is_shown line st field_name data_b64 bytes E ui :
  completes line st = true ->
  routed max_str_digits (frame line st) field_name data_b64 ->
  field_name <> "picture_data" ->
  Base64.b64decode data_b64 = Ok bytes ->
  (5 <? now E - clock (clock_reads st))%float = false ->
  truthy (get (song st) "picture_file") = true
  \/ (exists r,
        Cover.most_recent_cover COVER_ART_DIR (cover_art_dir E) = inl r) ->
  shown field_name
    (widgets_of
       (refresh_ui E
          (song (read_line PIL max_str_digits clock cover_dir line st)) ui))
  = or_dash (PyStr (Utf8.decode_replace bytes)).
Proof.
  intros Hc Hr Hf Hb Hfresh Hcov.
  pose proof Hr as (len & code & _ & _ & _ & _ & Htab).
  rewrite (read_line_routed _ _ _ _ _ _ _ _ Hc Hr),
    (decode_item_text _ _ _ _ _ _ _ Hb Hf).
  cbn [song set_buffer clock_reads].
  assert (Hfield : field_name <> "picture_file" /\ field_name <> "last_update")
    by (destruct (ESSENTIAL_FIELDS_values _ _ Htab) as [->|[->|[->| ->]]];
        split; discriminate).
  destruct Hfield as [Hpf Hlu].
  assert (Hpic : get (<["last_update" := PyFloat (clock (clock_reads st))]>
                        (<[field_name := PyStr (Utf8.decode_replace bytes)]>
                           (song st))) "picture_file"
                 = get (song st) "picture_file").
  { unfold get. rewrite lookup_insert_ne by discriminate.
    now rewrite lookup_insert_ne by exact Hpf. }
  assert (Hv : exists v,
             (if truthy (get (song st) "picture_file")
              then inl (get (song st) "picture_file")
              else most_recent E) = inl v).
  { destruct Hcov as [-> | [r Hr']]; [eauto|].
    destruct (truthy (get (song st) "picture_file")); [eauto|].
    unfold most_recent. rewrite Hr'. destruct r; eauto. }
  destruct Hv as [v Hv]. rewrite <- Hpic in Hv.
  destruct (refresh_ui_fresh_vars E _ ui _ v (lookup_insert_eq _ _ _) Hfresh Hv)
    as (Ht & Har & Hal).
  destruct (ESSENTIAL_FIELDS_values _ _ Htab) as [->|[->|[->| ->]]];
    [| | |contradiction]; unfold shown;
    [change (String.eqb "track_name" "track_name") with true
    |change (String.eqb "comment" "track_name") with false;
     change (String.eqb "comment" "comment") with true
    |change (String.eqb "album" "track_name") with false;
     change (String.eqb "album" "comment") with false];
    cbv iota; first [rewrite Ht | rewrite Har | rewrite Hal];
    unfold get;
    rewrite lookup_insert_ne by discriminate; now rewrite lookup_insert_eq.
Qed.

End ShownFacts.

(** ** More on [most_recent_cover] *)

Section CoverMore.

Import Cover.

Lemma filter_split {A} (P : A -> bool) l : forall before x behind,
  List.filter P l = (before ++ x :: behind)%list ->
  exists l1 l2,
    l = (l1 ++ x :: l2)%list
    /\ List.filter P l1 = before /\ List.filter P l2 = behind /\ P x = true.
Proof.
  induction l as [|a l IH]; intros before x behind H; simpl in H.
  - destruct before; discriminate.
  - destruct (P a) eqn:Ha.
    + destruct before as [|b before]; simpl in H; injection H as -> H.
      * exists nil, l. now repeat split.
      * destruct (IH _ _ _ H) as (l1 & l2 & -> & H1 & H2 & Hx).
        exists (b :: l1), l2. simpl. rewrite Ha, H1. now repeat split.
    + destruct (IH _ _ _ H) as (l1 & l2 & -> & H1 & H2 & Hx).
      exists (a :: l1), l2. simpl. rewrite Ha. now repeat split.
Qed.

(** When [stat] can read every candidate, the keys are theirs. *)
Lemma stat_all_readable l :
  (forall x, In x l -> exists g, x = Stat g) ->
  exists keyed, l = map Stat keyed.
Proof.
  induction l as [|x l IH]; intros H; [now exists nil|].
  destruct (H x (or_introl eq_refl)) as [g ->].
  destruct IH as [keyed ->]; [intros y Hy; apply H; now right|].
  now exists (g :: keyed).
Qed.

(** A recognized entry strictly newer than every other recognized entry is
    the one returned, wherever it stands in the directory and whatever
    unrecognized entries surround it, be they newer or unreadable by
    [stat]. *)
Theorem newest_candidate_wins p before f behind :
  is_candidate f = true ->
  (forall x, In x (before ++ behind) -> candidate x = true ->
             exists g, x = Stat g /\ st_mtime g < st_mtime f) ->
  most_recent_cover p (Listing (before ++ Stat f :: behind)%list)
  = inl (Some (child p (name f))).
Proof.
  intros Hf Hnewer. unfold most_recent_cover.
  assert (Hin : In (Stat f) (List.filter candidate (before ++ Stat f :: behind)))
    by (apply filter_In; split; [apply in_elt|exact Hf]).
  destruct (stat_all_readable (List.filter candidate (before ++ Stat f :: behind)))
    as [keyed Hk].
  { intros x Hx. apply filter_In in Hx as [Hx Hc].
    apply in_app_or in Hx as [Hb|[<-|Hb]]; [|now exists f|].
    - destruct (Hnewer x (in_or_app _ _ _ (or_introl Hb)) Hc) as (g & -> & _).
      now exists g.
    - destruct (Hnewer x (in_or_app _ _ _ (or_intror Hb)) Hc) as (g & -> & _).
      now exists g. }
  rewrite Hk in Hin |- *. apply In_map_Stat in Hin.
  destruct keyed as [|k keyed]; [destruct Hin|].
  change (map Stat (k :: keyed)) with (Stat k :: map Stat keyed) at 1.
  cbv iota. rewrite stat_all_map.
  destruct (sort_desc (k :: keyed)) as [|f' rest] eqn:E.
  - apply In_sort_desc in Hin. rewrite E in Hin. destruct Hin.
  - destruct (sort_desc_head _ _ _ E) as [Hf' Hmax].
    specialize (Hmax f Hin).
    assert (Hl : In (Stat f') (List.filter candidate (before ++ Stat f :: behind)))
      by (rewrite Hk; now apply In_map_Stat).
    apply filter_In in Hl as [Hl Hc'].
    apply in_app_or in Hl as [Hb|[[= ->]|Hb]]; [|reflexivity|].
    + destruct (Hnewer _ (in_or_app _ _ _ (or_introl Hb)) Hc')
        as (g & [= <-] & Hlt). lia.
    + destruct (Hnewer _ (in_or_app _ _ _ (or_intror Hb)) Hc')
        as (g & [= <-] & Hlt). lia.
Qed.

(** Among the recognized entries of greatest modification time the one
    returned is the first in the order of the directory. *)
Theorem most_recent_cover_first_newest p files path :
  most_recent_cover p (Listing files) = inl (Some path) ->
  exists before f behind,
    files = (before ++ Stat f :: behind)%list
    /\ is_candidate f = true
    /\ path = child p (name f)
    /\ (forall g, In (Stat g) before -> is_candidate g = true ->
                  st_mtime g < st_mtime f)
    /\ (forall g, In (Stat g) behind -> is_candidate g = true ->
                  st_mtime g <= st_mtime f).
Proof.
  intros H.
  destruct (most_recent_cover_inv _ _ _ H)
    as (l & keyed & f & rest & [= <-] & Hc & E & ->).
  destruct (sort_desc_head _ _ _ E) as [_ Hmax].
  destruct (sort_desc_head_first _ _ _ E) as (b' & h' & -> & Hlt).
  rewrite map_app in Hc. change (map Stat (f :: h')) with (Stat f :: map Stat h') in Hc.
  destruct (filter_split _ _ _ _ _ Hc) as (l1 & l2 & -> & H1 & H2 & Hf).
  exists l1, f, l2. repeat split; try assumption.
  - intros g Hg Hcg. apply Hlt. apply In_map_Stat. rewrite <- H1.
    apply filter_In. now split.
  - intros g Hg Hcg. apply Hmax. apply in_or_app. right. right.
    apply In_map_Stat. rewrite <- H2. apply filter_In. now split.
Qed.

(** *** The names the listener gives are the names the lookup knows *)

Lemma length_append a b :
  String.length (a ++ b) = (String.length a + String.length b)%nat.
Proof.
  induction a as [|c a IH]; [reflexivity|].
  change (S (String.length (a ++ b)) = S (String.length a + String.length b)).
  now rewrite IH.
Qed.

Lemma rfind_dot_stem stem ext :
  rfind_dot ext = -1 ->
  rfind_dot (stem ++ String "."%char ext) = Z.of_nat (String.length stem).
Proof.
  intros Hext. induction stem as [|c stem IH].
  - change (rfind_dot (String "."%char ext) = 0). cbn [rfind_dot]. now rewrite Hext.
  - change (rfind_dot (String c (stem ++ String "."%char ext))
            = Z.of_nat (S (String.length stem))).
    cbn [rfind_dot]. rewrite IH.
    destruct (Z.leb_spec 0 (Z.of_nat (String.length stem))); lia.
Qed.

Lemma substring_whole s : String.substring 0 (String.length s) s = s.
Proof. induction s as [|c s IH]; simpl; [reflexivity|now rewrite IH]. Qed.

Lemma substring_skip a b m :
  String.substring (String.length a) m (a ++ b) = String.substring 0 m b.
Proof.
  induction a as [|c a IH]; [reflexivity|].
  change (String.substring (S (String.length a)) m (String c (a ++ b))
          = String.substring 0 m b).
  exact IH.
Qed.

Lemma suffix_stem_ext stem ext :
  stem <> EmptyString -> ext <> EmptyString -> rfind_dot ext = -1 ->
  suffix (stem ++ String "."%char ext) = String "."%char ext.
Proof.
  intros Hstem Hext Hdot. unfold suffix.
  rewrite (rfind_dot_stem stem ext Hdot), length_append.
  change (String.length (String "."%char ext)) with (S (String.length ext)).
  assert (0 < String.length stem)%nat by (destruct stem; [contradiction|simpl; lia]).
  assert (0 < String.length ext)%nat by (destruct ext; [contradiction|simpl; lia]).
  destruct (Z.ltb_spec 0 (Z.of_nat (String.length stem))); [|lia].
  destruct (Z.ltb_spec (Z.of_nat (String.length stem))
              (Z.of_nat (String.length stem + S (String.length ext)) - 1));
    [|lia].
  cbn [andb]. rewrite Nat2Z.id.
  replace (Z.to_nat (Z.of_nat (String.length stem + S (String.length ext))
                     - Z.of_nat (String.length stem)))
    with (String.length (String "."%char ext)) by (simpl; lia).
  rewrite substring_skip. apply substring_whole.
Qed.

(** A file that the listener writes, cover_art_<ts>.<ext>, is recognized by
    [most_recent_cover] exactly when its extension, in lower case, is one of
    jpg, jpeg, png, gif and bmp: a picture stored under another format is
    never returned as the most recent cover. *)
Theorem saved_cover_recognized (ts : Z) ext mtime :
  ext <> EmptyString ->
  rfind_dot ext = -1 ->
  is_candidate
    {| name := "cover_art_" ++ pretty ts ++ "." ++ ext; st_mtime := mtime |}
  = existsb (String.eqb (Str.lower ext))
      ("jpg" :: "jpeg" :: "png" :: "gif" :: "bmp" :: nil).
Proof.
  intros Hext Hdot. unfold is_candidate, recognized. cbn [name].
  replace ("cover_art_" ++ pretty ts ++ "." ++ ext)
    with (("cover_art_" ++ pretty ts) ++ String "."%char ext)
    by (rewrite append_assoc; reflexivity).
  rewrite suffix_stem_ext; [reflexivity|discriminate|assumption..].
Qed.

End CoverMore.

(** ** The picture shown when none was pushed *)

Section FallbackFacts.

Import UI.

(** Within five seconds of an update, when the dictionary holds no picture
    path and [refresh_ui] reaches its end, the picture shown, if any, is a
    recognized entry of [COVER_ART_DIR] that no other recognized entry is
    newer than, and it exists and renders. *)
Theorem fresh_without_picture_shows_newest E m ui waited ui' p :
  elapsed (now E)
    match m !! "last_update" with Some v => v | None => PyInt 0 end
  = inl waited ->
  (5 <? waited)%float = false ->
  truthy (get m "picture_file") = false ->
  refresh_ui E m ui = Rescheduled ui' ->
  art_label ui' = Picture p ->
  exists files f,
    cover_art_dir E = Cover.Listing files
    /\ In (Cover.Stat f) files
    /\ Cover.is_candidate f = true
    /\ p = PyStr (Str.codepoints (Cover.child COVER_ART_DIR (Cover.name f)))
    /\ (forall g, In (Cover.Stat g) files -> Cover.is_candidate g = true ->
                  Cover.st_mtime g <= Cover.st_mtime f)
    /\ os_path_exists E p = inl true
    /\ renders E p = Rendered.
Proof.
  intros Hel Hfresh Hnone. unfold refresh_ui. rewrite Hel, Hfresh, Hnone.
  cbv iota zeta. unfold most_recent.
  destruct (Cover.most_recent_cover COVER_ART_DIR (cover_art_dir E))
    as [[path|]|e] eqn:Hcover.
  - destruct (most_recent_cover_found _ _ _ Hcover)
      as (files & f & Hl & Hin & Hc & -> & Hmax).
    unfold show_art.
    destruct (truthy (PyStr (Str.codepoints (Cover.child COVER_ART_DIR (Cover.name f)))));
      [|intros [= <-]; discriminate].
    destruct (os_path_exists E _) as [[|]|e] eqn:Hex;
      [|intros [= <-]; discriminate|discriminate].
    destruct (renders E _) eqn:Hren; [|intros [= <-]; discriminate].
    intros [= <-]. cbn [art_label]. intros [= <-].
    exists files, f. repeat split; try assumption.
    intros g Hg Hgc. destruct (Hmax (Cover.Stat g) Hg Hgc) as (g' & [= <-] & Hle).
    exact Hle.
  - intros [= <-]. discriminate.
  - discriminate.
Qed.

End FallbackFacts.

(** ** More on the lock *)

Section LockedMore.

Import Locked.

(** At every moment the lock is held exactly when one of the two threads
    is inside its block, and never are both inside. *)
Theorem lock_held_by_one c :
  reachable c ->
  locked c = writer_inside (w c) || reader_inside (r c)
  /\ writer_inside (w c) && reader_inside (r c) = false.
Proof.
  intros H. destruct (reachable_invariant c H) as [Hl He _ _ _]. now split.
Qed.

(** The two threads never block each other for good: in every reachable
    configuration some thread can take a step, and a thread inside its
    block is never the one that waits. *)
Theorem no_deadlock c : reachable c -> exists c', step c c'.
Proof.
  intros H. destruct (reachable_invariant c H) as [Hl He _ Hr _].
  destruct c as [d l wr rd done sn]. simpl in *.
  destruct wr as [|u|u|u].
  - destruct rd as [|got].
    + simpl in Hl. subst l. eexists.
      exact (writer_acquire d R_outside done sn
               {| key := "track_name"; value := PyNone; stamp := 0%float |}).
    + assert (Hlen : (List.length got <= List.length KEYS)%nat).
      { rewrite Hr at 1. rewrite length_map, length_firstn. lia. }
      destruct (Nat.eq_dec (List.length got) (List.length KEYS)) as [Heq|Hne].
      * eexists. exact (reader_release d l W_outside done sn got Heq).
      * destruct (nth_error KEYS (List.length got)) as [k|] eqn:Hk.
        -- eexists. exact (reader_get d l W_outside done sn got k Hk).
        -- apply nth_error_None in Hk. lia.
  - eexists. apply writer_assign.
  - eexists. apply writer_stamp.
  - eexists. apply writer_release.
Qed.

End LockedMore.

(** ** More on the payload *)

Section PayloadMore.

Import Base64.

(** A payload of ASCII characters without a pad is accepted exactly when the
    number of its characters from the base64 alphabet is a multiple of
    four. *)
Theorem b64decode_unpadded s raw :
  encode_ascii s = Ok raw ->
  ~ In BASE64_PAD raw ->
  is_Ok (b64decode s)
  = (Z.of_nat (List.length (List.filter isdigit64 raw)) mod 4 =? 0).
Proof.
  intros Hraw Hpad. unfold b64decode, a2b_base64. rewrite Hraw. simpl bind.
  now rewrite (a2b_loop_length raw 0 0 0) by (lia || assumption).
Qed.

End PayloadMore.
(** ** What is stored is text *)

Section TextFacts.

Import Utf8.

Lemma land_63 b : 128 <= b <= 191 -> Z.land b 0x3F = b - 128.
Proof.
  intros H. change 0x3F with (Z.ones 6). rewrite Z.land_ones by lia.
  change (2 ^ 6) with 64. symmetry. apply (Z.mod_unique b 64 2); lia.
Qed.

Lemma land_bounds b n : 0 <= n -> 0 <= Z.land b (Z.ones n) < 2 ^ n.
Proof. intros H. rewrite Z.land_ones by lia. apply Z.mod_pos_bound. lia. Qed.

(** The start bytes open only sequences that end in scalar values. *)
Lemma classify_ok ch :
  0 <= ch < 256 ->
  match classify ch with
  | Single cp => scalar_value cp
  | Multi p => pending_ok p
  | InvalidStart => True
  end.
Proof.
  intros Hch. unfold classify.
  destruct (Z.ltb_spec ch 0x80); [unfold scalar_value; lia|].
  destruct (Z.ltb_spec ch 0xC2); [exact I|].
  destruct (Z.ltb_spec ch 0xE0).
  { pose proof (land_bounds ch 5 ltac:(lia)) as Hb.
    change (Z.ones 5) with 0x1F in Hb. change (2 ^ 5) with 32 in Hb.
    unfold pending_ok, ends_upto, ends_from. cbn [acc more lo hi].
    change (64 ^ Z.of_nat 0) with 1. lia. }
  destruct (Z.ltb_spec ch 0xF0).
  { assert (Hcases : ch = 224 \/ ch = 225 \/ ch = 226 \/ ch = 227 \/ ch = 228
                     \/ ch = 229 \/ ch = 230 \/ ch = 231 \/ ch = 232
                     \/ ch = 233 \/ ch = 234 \/ ch = 235 \/ ch = 236
                     \/ ch = 237 \/ ch = 238 \/ ch = 239) by lia.
    unfold pending_ok, ends_upto, ends_from.
    repeat (destruct Hcases as [->|Hcases]); try subst ch;
      vm_compute; intuition (lia || discriminate). }
  destruct (Z.ltb_spec ch 0xF5); [|exact I].
  assert (Hcases : ch = 240 \/ ch = 241 \/ ch = 242 \/ ch = 243 \/ ch = 244)
    by lia.
  unfold pending_ok, ends_upto, ends_from.
  repeat (destruct Hcases as [->|Hcases]); try subst ch;
    vm_compute; intuition (lia || discriminate).
Qed.

Lemma scalar_REPLACEMENT : scalar_value REPLACEMENT.
Proof. unfold scalar_value, REPLACEMENT. lia. Qed.

(** One more byte of a sequence: it ends in a scalar value, or goes on as a
    sequence that can only end in one. *)
Lemma continue_ok p ch :
  pending_ok p ->
  lo p <= ch <= hi p ->
  match more p with
  | O => scalar_value (acc p * 64 + Z.land ch 0x3F)
  | S n =>
      pending_ok {| acc := acc p * 64 + Z.land ch 0x3F; more := n;
                    lo := 0x80; hi := 0xBF |}
  end.
Proof.
  intros (Hlo & Hhi & Hacc & Hmore & Hup & Hsur) Hch.
  rewrite (land_63 ch) by lia.
  unfold ends_upto, ends_from in *.
  destruct (more p) as [|[|[|n]]]; [| | |lia].
  - change (64 ^ Z.of_nat 0) with 1 in *. unfold scalar_value. lia.
  - change (64 ^ Z.of_nat 1) with 64 in *.
    unfold pending_ok, ends_upto, ends_from. cbn [acc more lo hi].
    change (64 ^ Z.of_nat 0) with 1. lia.
  - change (64 ^ Z.of_nat 2) with 4096 in *.
    unfold pending_ok, ends_upto, ends_from. cbn [acc more lo hi].
    change (64 ^ Z.of_nat 1) with 64. lia.
Qed.

Lemma decode_from_scalar bs : forall st,
  Forall (fun b => 0 <= b < 256) bs ->
  match st with Some p => pending_ok p | None => True end ->
  Forall scalar_value (decode_from st bs).
Proof.
  induction bs as [|ch bs IH]; intros st Hbs Hst.
  - destruct st; simpl; [|constructor].
    constructor; [exact scalar_REPLACEMENT|constructor].
  - inversion Hbs as [|? ? Hch Hrest]; subst.
    assert (Hfresh : Forall scalar_value
                       match classify ch with
                       | Single cp => cp :: decode_from None bs
                       | Multi p => decode_from (Some p) bs
                       | InvalidStart => REPLACEMENT :: decode_from None bs
                       end).
    { pose proof (classify_ok ch Hch) as Hc.
      destruct (classify ch) as [cp|p|].
      - constructor; [exact Hc|now apply IH].
      - now apply IH.
      - constructor; [exact scalar_REPLACEMENT|now apply IH]. }
    cbn [decode_from]. destruct st as [p|]; [|exact Hfresh].
    destruct (Z.leb_spec (lo p) ch) as [H1|H1]; cbn [andb];
      [|constructor; [exact scalar_REPLACEMENT|exact Hfresh]].
    destruct (Z.leb_spec ch (hi p)) as [H2|H2];
      [|constructor; [exact scalar_REPLACEMENT|exact Hfresh]].
    pose proof (continue_ok p ch Hst (conj H1 H2)) as Hnext.
    destruct (more p) as [|n].
    + constructor; [exact Hnext|now apply IH].
    + now apply IH.
Qed.

(** The bytes that the base64 loop writes are bytes. *)
Lemma a2b_loop_bytes data : forall quad_pos leftchar pads bs,
  Base64.a2b_loop data quad_pos leftchar pads = Ok bs ->
  Forall (fun b => 0 <= b < 256) bs.
Proof.
  induction data as [|c data IH]; intros quad_pos leftchar pads bs; simpl.
  - destruct (quad_pos =? 0); [intros [= <-]; constructor|discriminate].
  - assert (Hemit : forall b q l p,
               Base64.emit b (Base64.a2b_loop data q l p) = Ok bs ->
               Forall (fun b => 0 <= b < 256) bs).
    { intros b q l p. unfold Base64.emit.
      destruct (Base64.a2b_loop data q l p) as [bs'|] eqn:E; [|discriminate].
      simpl. intros [= <-]. constructor; [|exact (IH _ _ _ _ E)].
      pose proof (land_bounds b 8 ltac:(lia)) as Hb.
      change (Z.ones 8) with 255 in Hb. change (2 ^ 8) with 256 in Hb. exact Hb. }
    repeat match goal with
           | |- context [if ?b then _ else _] => destruct b
           end; eauto; intros [= <-]; constructor.
Qed.

End TextFacts.

Section StoredTextFacts.

Variable PIL : imaging.
Variable max_str_digits : Z.
Variable clock : nat -> float.
Variable cover_dir : string.

(** The text that a frame leaves in its field is made of Unicode scalar
    values whatever bytes the payload holds: no surrogate, nothing above
    U+10FFFF. *)
Theorem stored_text_is_unicode line st field_name data_b64 bytes :
  completes line st = true ->
  routed max_str_digits (frame line st) field_name data_b64 ->
  field_name <> "picture_data" ->
  Base64.b64decode data_b64 = Ok bytes ->
  exists text,
    song (read_line PIL max_str_digits clock cover_dir line st) !! field_name
    = Some (PyStr text)
    /\ Forall scalar_value text.
Proof.
  intros Hc Hr Hf Hb.
  pose proof Hr as (len & code & _ & _ & _ & _ & Htab).
  exists (Utf8.decode_replace bytes). split.
  - rewrite (read_line_routed _ _ _ _ _ _ _ _ Hc Hr),
      (decode_item_text _ _ _ _ _ _ _ Hb Hf).
    simpl.
    rewrite lookup_insert_ne by (intros E; symmetry in E; revert E;
                                  exact (text_field_not_stamp _ _ Htab)).
    apply lookup_insert_eq.
  - apply decode_from_scalar; [|exact I].
    unfold Base64.b64decode in Hb.
    destruct (Base64.encode_ascii data_b64) as [raw|]; [|discriminate].
    exact (a2b_loop_bytes _ _ _ _ _ Hb).
Qed.

End StoredTextFacts.

Section WedgedFacts.

Variable PIL : imaging.
Variable max_str_digits : Z.
Variable clock : nat -> float.
Variable cover_dir : string.

Lemma listen_refused evs : forall st e,
  frame_length max_str_digits (buffer st) = Raise e ->
  song (listen PIL max_str_digits clock cover_dir evs st) = song st
  /\ files (listen PIL max_str_digits clock cover_dir evs st) = files st
  /\ buffer (listen PIL max_str_digits clock cover_dir evs st) <> EmptyString.
Proof.
  induction evs as [|[line| |e'] evs IH]; intros st e Hlen;
    unfold listen; cbn [fold_left on_event].
  - repeat split. intros Hb. rewrite Hb in Hlen. discriminate.
  - destruct (read_line_refused PIL max_str_digits clock cover_dir line st e Hlen)
      as (Hsong & Hfiles & Hlen').
    destruct (IH _ e Hlen') as (Hs & Hf & Hb).
    unfold listen in Hs, Hf, Hb. now rewrite Hs, Hf.
  - exact (IH st e Hlen).
  - exact (IH (print (Metadata_listener_exception e') st) e Hlen).
Qed.

(** One completed frame whose length [int] refuses silences the listener for
    good: whatever is read afterwards, and however often the pipe is opened
    again, the dictionary and the files stay as they were before that frame
    and the buffer is never emptied. *)
Theorem overlong_frame_silences_listener line evs st e :
  completes line st = true ->
  frame_length max_str_digits (frame line st) = Raise e ->
  song (listen PIL max_str_digits clock cover_dir evs
          (read_line PIL max_str_digits clock cover_dir line st))
  = song st
  /\ files (listen PIL max_str_digits clock cover_dir evs
              (read_line PIL max_str_digits clock cover_dir line st))
     = files st
  /\ buffer (listen PIL max_str_digits clock cover_dir evs
               (read_line PIL max_str_digits clock cover_dir line st))
     <> EmptyString.
Proof.
  intros Hc Hlen.
  rewrite (refused_length_keeps_buffer PIL max_str_digits clock cover_dir
             line st e Hc Hlen).
  exact (listen_refused evs
           (print (Metadata_listener_exception e) (set_buffer (frame line st) st))
           e Hlen).
Qed.

(** A text payload of ASCII bytes is stored byte for byte. *)
Theorem ascii_text_stored_verbatim line st field_name data_b64 bytes :
  completes line st = true ->
  routed max_str_digits (frame line st) field_name data_b64 ->
  field_name <> "picture_data" ->
  Base64.b64decode data_b64 = Ok bytes ->
  Forall (fun b => b < 128) bytes ->
  song (read_line PIL max_str_digits clock cover_dir line st) !! field_name
  = Some (PyStr bytes).
Proof.
  intros Hc Hr Hf Hb Hascii.
  pose proof Hr as (len & code & _ & _ & _ & _ & Htab).
  rewrite (read_line_routed _ _ _ _ _ _ _ _ Hc Hr),
    (decode_item_text _ _ _ _ _ _ _ Hb Hf).
  simpl. rewrite (decode_replace_ascii bytes Hascii).
  rewrite lookup_insert_ne by (intros E; symmetry in E; revert E;
                                exact (text_field_not_stamp _ _ Htab)).
  apply lookup_insert_eq.
Qed.

End WedgedFacts.

(** ** A pushed picture on the screen *)

Section PictureShownFacts.

Import UI.

Variable PIL : imaging.
Variable max_str_digits : Z.
Variable clock : nat -> float.
Variable cover_dir : string.

Lemma codepoints_app_nonempty a c s :
  Str.codepoints (a ++ String c s) <> nil.
Proof. destruct a; discriminate. Qed.

Lemma cover_art_file_nonempty ts ext :
  Str.codepoints (cover_art_file cover_dir ts ext) <> nil.
Proof.
  unfold cover_art_file, os_path_join.
  change ("cover_art_" ++ pretty ts ++ "." ++ ext)
    with (String "c"%char ("over_art_" ++ pretty ts ++ "." ++ ext)).
  change (Str.startswith (String "c"%char ("over_art_" ++ pretty ts ++ "." ++ ext)) "/")
    with false.
  cbv iota.
  destruct (String.eqb cover_dir EmptyString || Str.endswith cover_dir "/").
  - apply codepoints_app_nonempty.
  - change (cover_dir ++ "/" ++ String "c"%char ("over_art_" ++ pretty ts ++ "." ++ ext))
      with (cover_dir ++ String "/"%char
              (String "c"%char ("over_art_" ++ pretty ts ++ "." ++ ext))).
    apply codepoints_app_nonempty.
Qed.

(** For five seconds after a picture was stored, the art on the screen is
    that picture if its file exists and renders, and "No art" if not: never
    the logo, and never another file of the cover directory. *)
Theorem saved_picture_is_shown line st data_b64 bytes img ts content E ui :
  completes line st = true ->
  routed max_str_digits (frame line st) "picture_data" data_b64 ->
  Base64.b64decode data_b64 = Ok bytes ->
  Image_open PIL bytes = Ok img ->
  Int.of_float (clock (clock_reads st) * 1000)%float = Ok ts ->
  Image_save PIL img (cover_art_file cover_dir ts (extension PIL img))
    (files st !! cover_art_file cover_dir ts (extension PIL img))
  = Saved content ->
  (5 <? now E - clock (S (clock_reads st)))%float = false ->
  art_label
    (widgets_of
       (refresh_ui E
          (song (read_line PIL max_str_digits clock cover_dir line st)) ui))
  = match
      os_path_exists E
        (PyStr (Str.codepoints
                  (cover_art_file cover_dir ts (extension PIL img)))),
      renders E
        (PyStr (Str.codepoints
                  (cover_art_file cover_dir ts (extension PIL img))))
    with
    | inl true, Rendered =>
        Picture (PyStr (Str.codepoints
                          (cover_art_file cover_dir ts (extension PIL img))))
    | _, _ => No_art
    end.
Proof.
  intros Hc Hr Hb Ho Ht Hs Hfresh.
  rewrite (read_line_routed _ _ _ _ _ _ _ _ Hc Hr),
    (decode_item_picture _ _ _ _ _ _ Hb).
  rewrite (save_picture_saved PIL clock cover_dir bytes
             (set_buffer (frame line st) st) img ts content Ho Ht Hs).
  cbn [song set_buffer clock_reads].
  unfold refresh_ui. rewrite lookup_insert_eq. cbn [elapsed].
  rewrite Hfresh.
  pose proof (cover_art_file_nonempty ts (extension PIL img)) as Hne.
  set (path := Str.codepoints (cover_art_file cover_dir ts (extension PIL img)))
    in *.
  assert (Hget : get
                   (<["last_update" := PyFloat (clock (S (clock_reads st)))]>
                      (<["picture_file" := PyStr path]> (song st)))
                   "picture_file"
                 = PyStr path).
  { unfold get. rewrite lookup_insert_ne by discriminate.
    now rewrite lookup_insert_eq. }
  rewrite !Hget.
  assert (Htruthy : truthy (PyStr path) = true)
    by (destruct path; [contradiction|reflexivity]).
  rewrite Htruthy. unfold show_art. rewrite Htruthy. cbn [os_path_exists].
  destruct (exists_path E path); [|reflexivity].
  destruct (renders E (PyStr path)); reflexivity.
Qed.

End PictureShownFacts.

(** * The further properties on the examples *)

(** The frame "Hello" has a length that [int] accepts, and leaves the buffer
    empty. *)
Lemma hello_buffer_empty :
  buffer (run_line hello_line (initial ∅)) = EmptyString
  <-> exists len, frame_length 4300 (frame hello_line (initial ∅)) = Ok len.
Proof.
  apply (buffer_empty_iff_length_accepted Tiny.PIL 4300 fast_clock COVER_ART_DIR
           hello_line (initial ∅)).
  vm_compute. reflexivity.
Defined.

(** An album frame of length 0 and a frame of an unknown code pass without a
    trace. *)
Lemma dropped_lines_unnoticed :
  metadata_listener Tiny.PIL 4300 fast_clock COVER_ART_DIR
    (album_zero_line :: other_code_line :: nil) (initial ∅)
  = initial ∅.
Proof.
  apply (unnoticed_lines_change_nothing Tiny.PIL 4300 fast_clock COVER_ART_DIR
           (album_zero_line :: other_code_line :: nil) (initial ∅)).
  - reflexivity.
  - constructor; [|constructor; [|constructor]].
    + split; [discriminate|]. split; [vm_compute; reflexivity|].
      split; [left; vm_compute; reflexivity|].
      exists 0. vm_compute. reflexivity.
    + split; [discriminate|]. split; [vm_compute; reflexivity|].
      split; [|exists 5; vm_compute; reflexivity].
      right. right. right. exists "70726772".
      split; vm_compute; reflexivity.
Defined.

(** "Hello", then "World": the title is "World", stamped at the second
    reading of the clock. *)
Lemma world_after_hello :
  song (run_line world_line (run_line hello_line (initial ∅)))
  = <["last_update" := PyFloat (fast_clock 1)]>
      (<["track_name" := PyStr (Utf8.decode_replace (Str.codepoints "World"))]>
         (song (initial ∅))).
Proof.
  apply (last_write_wins Tiny.PIL 4300 fast_clock COVER_ART_DIR
           hello_line world_line (initial ∅) "track_name"
           "SGVsbG8=" "V29ybGQ=" (Str.codepoints "Hello") (Str.codepoints "World")).
  - vm_compute. reflexivity.
  - exists 5, "6d696e6d". vm_compute. repeat split; reflexivity.
  - vm_compute. reflexivity.
  - discriminate.
  - vm_compute. reflexivity.
  - exists 5, "6d696e6d". vm_compute. repeat split; reflexivity.
  - vm_compute. reflexivity.
  - discriminate.
Defined.

(** The declared length of the "Hello" frame, 5 or 99, makes no
    difference. *)
Lemma hello_99_as_hello :
  run_line hello_line (initial ∅) = run_line hello_99_line (initial ∅).
Proof.
  apply (same_routing_same_effect Tiny.PIL 4300 fast_clock COVER_ART_DIR
           hello_line hello_99_line (initial ∅) "track_name" "SGVsbG8=").
  - vm_compute. reflexivity.
  - vm_compute. reflexivity.
  - exists 5, "6d696e6d". vm_compute. repeat split; reflexivity.
  - exists 99, "6d696e6d". vm_compute. repeat split; reflexivity.
Defined.

(** The title frame leaves the cover stored earlier as it is. *)
Lemma hello_writes_no_file :
  files (run_line hello_line
           (initial {[ earlier_cover := pixmap_b ]}))
  = files (initial {[ earlier_cover := pixmap_b ]}).
Proof.
  apply (only_pictures_write_files Tiny.PIL 4300 fast_clock COVER_ART_DIR
           hello_line
           (initial {[ earlier_cover := pixmap_b ]})).
  intros data_b64 (_ & len & code & _ & _ & Hcode & _ & Htab).
  vm_compute in Hcode. injection Hcode as <-.
  vm_compute in Htab. discriminate.
Defined.

(** The "Hello" frame in two lines, as the sender writes it. *)
Lemma hello_in_two_lines :
  run_line hello_tail_line (run_line hello_head_line (initial ∅))
  = run_line hello_line (initial ∅).
Proof.
  apply (split_frame_as_whole Tiny.PIL 4300 fast_clock COVER_ART_DIR
           hello_head_line hello_tail_line hello_line (initial ∅)).
  - discriminate.
  - discriminate.
  - discriminate.
  - vm_compute. reflexivity.
  - vm_compute. reflexivity.
Defined.

(** 9.5 s after "Hello" the screen asks to connect. *)
Lemma hello_gone_stale :
  exists ui',
    UI.refresh_ui (screen_at 1700000010)
      (song (run_line hello_line (initial ∅))) UI.created
    = UI.Rescheduled ui'
    /\ UI.track_var ui' = UI.CONNECT_TRACK
    /\ UI.artist_var ui' = UI.CONNECT_ARTIST
    /\ UI.album_var ui' = UI.CONNECT_ALBUM
    /\ (UI.art_label ui' = UI.No_art
        \/ UI.art_label ui' = UI.Picture UI.LOGO
           /\ UI.os_path_exists (screen_at 1700000010) UI.LOGO = inl true
           /\ UI.renders (screen_at 1700000010) UI.LOGO = UI.Rendered).
Proof.
  apply (stale_shows_connect (screen_at 1700000010)
           (song (run_line hello_line (initial ∅))) UI.created
           (1700000010 - 1700000000.5)%float).
  - vm_compute. reflexivity.
  - vm_compute. reflexivity.
Defined.

(** 1.5 s after "Hello" the title on the screen is "Hello". *)
Lemma hello_on_screen :
  UI.shown "track_name"
    (UI.widgets_of
       (UI.refresh_ui (screen_at 1700000002)
          (song (run_line hello_line (initial ∅))) UI.created))
  = UI.or_dash (PyStr (Utf8.decode_replace (Str.codepoints "Hello"))).
Proof.
  apply (fresh_text_is_shown Tiny.PIL 4300 fast_clock COVER_ART_DIR
           hello_line (initial ∅) "track_name" "SGVsbG8="
           (Str.codepoints "Hello") (screen_at 1700000002) UI.created).
  - vm_compute. reflexivity.
  - exists 5, "6d696e6d". vm_compute. repeat split; reflexivity.
  - discriminate.
  - vm_compute. reflexivity.
  - vm_compute. reflexivity.
  - right. exists (Some newer_cover). vm_compute. reflexivity.
Defined.

(** The newer picture wins over the older one standing before it, the text
    file being newer than both. *)
Lemma newer_entry_wins :
  Cover.most_recent_cover COVER_ART_DIR
    (Cover.Listing
       ((Cover.Stat older_entry :: Cover.Stat notes_entry :: nil)
        ++ Cover.Stat newer_entry :: nil)%list)
  = inl (Some (Cover.child COVER_ART_DIR (Cover.name newer_entry))).
Proof.
  apply (newest_candidate_wins COVER_ART_DIR
           (Cover.Stat older_entry :: Cover.Stat notes_entry :: nil)
           newer_entry nil).
  - vm_compute. reflexivity.
  - intros x [<-|[<-|[]]] Hx.
    + exists older_entry. split; reflexivity.
    + vm_compute in Hx. discriminate.
Defined.

(** In that directory the picture returned is the newer one. *)
Lemma cover_listing_first_newest :
  exists before f behind,
    cover_listing = (before ++ Cover.Stat f :: behind)%list
    /\ Cover.is_candidate f = true
    /\ newer_cover = Cover.child COVER_ART_DIR (Cover.name f)
    /\ (forall g, In (Cover.Stat g) before -> Cover.is_candidate g = true ->
                  Cover.st_mtime g < Cover.st_mtime f)
    /\ (forall g, In (Cover.Stat g) behind -> Cover.is_candidate g = true ->
                  Cover.st_mtime g <= Cover.st_mtime f).
Proof.
  apply (most_recent_cover_first_newest COVER_ART_DIR cover_listing
           newer_cover).
  vm_compute. reflexivity.
Defined.

(** The name given to a JPEG stored at 1700000000.5 is recognized. *)
Lemma jpeg_name_recognized :
  Cover.is_candidate
    {| Cover.name := "cover_art_" ++ pretty 1700000000500 ++ "." ++ "jpeg";
       Cover.st_mtime := 20 |}
  = existsb (String.eqb (Str.lower "jpeg"))
      ("jpg" :: "jpeg" :: "png" :: "gif" :: "bmp" :: nil).
Proof.
  apply (saved_cover_recognized 1700000000500 "jpeg" 20).
  - discriminate.
  - reflexivity.
Defined.

(** 1.5 s after "Hello", no picture having been pushed, the picture on the
    screen is the newer one of the directory. *)
Lemma hello_with_newer_cover :
  exists files f,
    UI.cover_art_dir (screen_at 1700000002) = Cover.Listing files
    /\ In (Cover.Stat f) files
    /\ Cover.is_candidate f = true
    /\ PyStr (Str.codepoints newer_cover)
       = PyStr (Str.codepoints (Cover.child COVER_ART_DIR (Cover.name f)))
    /\ (forall g, In (Cover.Stat g) files -> Cover.is_candidate g = true ->
                  Cover.st_mtime g <= Cover.st_mtime f)
    /\ UI.os_path_exists (screen_at 1700000002)
         (PyStr (Str.codepoints newer_cover)) = inl true
    /\ UI.renders (screen_at 1700000002)
         (PyStr (Str.codepoints newer_cover)) = UI.Rendered.
Proof.
  apply (fresh_without_picture_shows_newest (screen_at 1700000002)
           (song (run_line hello_line (initial ∅))) UI.created
           (1700000002 - 1700000000.5)%float
           (UI.widgets_of
              (UI.refresh_ui (screen_at 1700000002)
                 (song (run_line hello_line (initial ∅))) UI.created))
           (PyStr (Str.codepoints newer_cover))).
  - vm_compute. reflexivity.
  - vm_compute. reflexivity.
  - vm_compute. reflexivity.
  - vm_compute. reflexivity.
  - vm_compute. reflexivity.
Defined.

(** After the update "Hello" and a snapshot nobody holds the lock. *)
Lemma hello_seen_lock_free :
  Locked.locked Locked.hello_seen
  = Locked.writer_inside (Locked.w Locked.hello_seen)
    || Locked.reader_inside (Locked.r Locked.hello_seen)
  /\ Locked.writer_inside (Locked.w Locked.hello_seen)
     && Locked.reader_inside (Locked.r Locked.hello_seen) = false.
Proof.
  apply (lock_held_by_one Locked.hello_seen). exact hello_seen_reachable.
Defined.

Lemma hello_seen_goes_on : exists c', Locked.step Locked.hello_seen c'.
Proof.
  apply (no_deadlock Locked.hello_seen). exact hello_seen_reachable.
Defined.

(** Four characters of the alphabet are accepted. *)
Lemma SGVs_accepted :
  is_Ok (Base64.b64decode "SGVs")
  = (Z.of_nat (List.length (List.filter Base64.isdigit64
                              (83 :: 71 :: 86 :: 115 :: nil))) mod 4 =? 0).
Proof.
  apply (b64decode_unpadded "SGVs" (83 :: 71 :: 86 :: 115 :: nil)).
  - vm_compute. reflexivity.
  - vm_compute. intros [H|[H|[H|[H|[]]]]]; discriminate.
Defined.

(** The bytes ED A0 80 are not stored as a surrogate. *)
Lemma surrogate_not_stored :
  exists text,
    song (run_line surrogate_line (initial ∅)) !! "track_name"
    = Some (PyStr text)
    /\ Forall scalar_value text.
Proof.
  apply (stored_text_is_unicode Tiny.PIL 4300 fast_clock COVER_ART_DIR
           surrogate_line (initial ∅) "track_name" "7aCA"
           (237 :: 160 :: 128 :: nil)).
  - vm_compute. reflexivity.
  - exists 3, "6d696e6d". vm_compute. repeat split; reflexivity.
  - discriminate.
  - vm_compute. reflexivity.
Defined.

(** After the overlong "Hello" frame neither "Hello" nor "World" arrives,
    not even after the pipe was opened again. *)
Lemma overlong_then_nothing :
  song (listen Tiny.PIL 4300 fast_clock COVER_ART_DIR
          (Readline hello_line :: Pipe_raises ValueError :: Pipe_missing
           :: Readline world_line :: nil)
          (run_line overlong_hello_line (initial ∅)))
  = song (initial ∅)
  /\ files (listen Tiny.PIL 4300 fast_clock COVER_ART_DIR
              (Readline hello_line :: Pipe_raises ValueError :: Pipe_missing
               :: Readline world_line :: nil)
              (run_line overlong_hello_line (initial ∅)))
     = files (initial ∅)
  /\ buffer (listen Tiny.PIL 4300 fast_clock COVER_ART_DIR
               (Readline hello_line :: Pipe_raises ValueError :: Pipe_missing
                :: Readline world_line :: nil)
               (run_line overlong_hello_line (initial ∅)))
     <> EmptyString.
Proof.
  apply (overlong_frame_silences_listener Tiny.PIL 4300 fast_clock COVER_ART_DIR
           overlong_hello_line
           (Readline hello_line :: Pipe_raises ValueError :: Pipe_missing
            :: Readline world_line :: nil)
           (initial ∅) ValueError).
  - vm_compute. reflexivity.
  - vm_compute. reflexivity.
Defined.

(** "Hello" is ASCII and is stored as it is. *)
Lemma hello_verbatim :
  song (run_line hello_line (initial ∅)) !! "track_name"
  = Some (PyStr (Str.codepoints "Hello")).
Proof.
  apply (ascii_text_stored_verbatim Tiny.PIL 4300 fast_clock COVER_ART_DIR
           hello_line (initial ∅) "track_name" "SGVsbG8="
           (Str.codepoints "Hello")).
  - vm_compute. reflexivity.
  - exists 5, "6d696e6d". vm_compute. repeat split; reflexivity.
  - discriminate.
  - vm_compute. reflexivity.
  - vm_compute. repeat constructor.
Defined.

(** 1.5 s after the pixmap was stored it is the picture on the screen. *)
Lemma pixmap_a_on_screen :
  UI.art_label
    (UI.widgets_of
       (UI.refresh_ui (screen_at 1700000002)
          (song (run_line (item "50494354" "14" ppm_a) (initial ∅)))
          UI.created))
  = match
      UI.os_path_exists (screen_at 1700000002)
        (PyStr (Str.codepoints
                  (cover_art_file COVER_ART_DIR 1700000000500
                     (extension Tiny.PIL
                        {| Tiny.width := 1; Tiny.height := 1;
                           Tiny.raster := 1 :: 2 :: 3 :: nil |})))),
      UI.renders (screen_at 1700000002)
        (PyStr (Str.codepoints
                  (cover_art_file COVER_ART_DIR 1700000000500
                     (extension Tiny.PIL
                        {| Tiny.width := 1; Tiny.height := 1;
                           Tiny.raster := 1 :: 2 :: 3 :: nil |}))))
    with
    | inl true, UI.Rendered =>
        UI.Picture
          (PyStr (Str.codepoints
                    (cover_art_file COVER_ART_DIR 1700000000500
                       (extension Tiny.PIL
                          {| Tiny.width := 1; Tiny.height := 1;
                             Tiny.raster := 1 :: 2 :: 3 :: nil |}))))
    | _, _ => UI.No_art
    end.
Proof.
  apply (saved_picture_is_shown Tiny.PIL 4300 fast_clock COVER_ART_DIR
           (item "50494354" "14" ppm_a) (initial ∅) ppm_a
           pixmap_a
           {| Tiny.width := 1; Tiny.height := 1;
              Tiny.raster := 1 :: 2 :: 3 :: nil |}
           1700000000500 pixmap_a
           (screen_at 1700000002) UI.created).
  - vm_compute. reflexivity.
  - exists 14, "50494354". vm_compute. repeat split; reflexivity.
  - vm_compute. reflexivity.
  - vm_compute. reflexivity.
  - vm_compute. reflexivity.
  - vm_compute. reflexivity.
  - vm_compute. reflexivity.
Defined.
